(** * Verification of the hybrid query processor (query_processor.py)

    A shallow embedding of [EnhancedQueryProcessor]: text normalisation,
    intent classification, concept extraction, structured-query synthesis,
    literal escaping, retrieval orchestration and context assembly.

    Conventions of the embedding.
    - A Python [str] is a [string]: a sequence of characters with code points
      0..255.  On that range the classes of the [re] module ([\w], [\s], [\b])
      and [str.lower] are the tables of section [Text] below.
    - A dict whose keys are read by name is a record; a dict that is iterated
      or probed with [.get] is an association list in insertion order.
    - A call of an external collaborator returns an [outcome]: a value or a
      raised exception.
    - Scores are the rationals the Python floats denote: every score is a
      multiple of 0.5, which a float holds exactly. *)

From Stdlib Require Import String Ascii List Bool Arith ZArith QArith Lia.
From Stdlib Require Import Permutation Sorted DecimalString.
Import ListNotations.

Open Scope list_scope.
Open Scope string_scope.
Open Scope nat_scope.

(** ** Python text primitives *)

Module Text.

Definition code (c : ascii) : nat := nat_of_ascii c.

Definition between (lo hi : nat) (c : ascii) : bool :=
  (lo <=? code c) && (code c <=? hi).

Definition is_code (n : nat) (c : ascii) : bool := code c =? n.

(** The character class [a-zA-Z]. *)
Definition is_ascii_letter (c : ascii) : bool :=
  between 65 90 c || between 97 122 c.

(** [\w] of a str pattern: alphanumeric in the Unicode database, or [_].
    Below 256 the alphanumerics are the ASCII letters and digits, the
    ordinal indicators, micro sign, superscript digits and vulgar fractions,
    and the accented letters (all of 192..255 but the two operators). *)
Definition is_word (c : ascii) : bool :=
  is_ascii_letter c || between 48 57 c || is_code 95 c ||
  is_code 170 c || is_code 178 c || is_code 179 c || is_code 181 c ||
  is_code 185 c || is_code 186 c || between 188 190 c ||
  between 192 214 c || between 216 246 c || between 248 255 c.

(** [\s] of a str pattern, also what [str.strip] removes. *)
Definition is_space (c : ascii) : bool :=
  between 9 13 c || between 28 31 c || is_code 32 c ||
  is_code 133 c || is_code 160 c.

(** [str.lower] on one character. *)
Definition lower_char (c : ascii) : ascii :=
  if between 65 90 c || between 192 214 c || between 216 222 c
  then ascii_of_nat (code c + 32) else c.

Fixpoint lower (s : string) : string :=
  match s with
  | EmptyString => EmptyString
  | String c s' => String (lower_char c) (lower s')
  end.

Fixpoint chars (s : string) : list ascii :=
  match s with
  | EmptyString => []
  | String c s' => c :: chars s'
  end.

Definition len (s : string) : nat := String.length s.

Definition is_empty (s : string) : bool :=
  match s with EmptyString => true | _ => false end.

(** [s.replace(old, new)] for a one-character [old], which is how every call
    site of the source uses it. *)
Fixpoint replace (old : ascii) (new : string) (s : string) : string :=
  match s with
  | EmptyString => EmptyString
  | String c s' =>
      if Ascii.eqb c old then new ++ replace old new s'
      else String c (replace old new s')
  end.

(** [re.sub(r'[^...]', '', s)]: the characters of the class are kept. *)
Fixpoint keep_only (cls : ascii -> bool) (s : string) : string :=
  match s with
  | EmptyString => EmptyString
  | String c s' =>
      if cls c then String c (keep_only cls s') else keep_only cls s'
  end.

(** [sub in s] and [s.startswith(sub)]. *)
Fixpoint startswith (sub s : string) : bool :=
  match sub, s with
  | EmptyString, _ => true
  | String a sub', String b s' => Ascii.eqb a b && startswith sub' s'
  | String _ _, EmptyString => false
  end.

Fixpoint contains (sub s : string) : bool :=
  startswith sub s ||
  match s with
  | EmptyString => false
  | String _ s' => contains sub s'
  end.

(** [s.find(sub)]: the least index at which [sub] starts, or -1. *)
Fixpoint find_from (i : Z) (sub s : string) : Z :=
  if startswith sub s then i
  else match s with
       | EmptyString => (-1)%Z
       | String _ s' => find_from (i + 1)%Z sub s'
       end.

Definition find (sub s : string) : Z := find_from 0%Z sub s.

(** [s.count(sub)]: occurrences that do not overlap, scanned from the left.
    [skip] is the number of characters of the last occurrence still to pass;
    the empty [sub] occurs at every index and at the end. *)
Fixpoint count_from (skip : nat) (sub s : string) : nat :=
  match s with
  | EmptyString => if is_empty sub then 1 else 0
  | String _ s' =>
      match skip with
      | S k => count_from k sub s'
      | O =>
          if startswith sub s
          then S (count_from (Nat.pred (len sub)) sub s')
          else count_from 0 sub s'
      end
  end.

Definition count (sub s : string) : nat := count_from 0 sub s.

(** [s.strip()]. *)
Fixpoint lstrip (s : string) : string :=
  match s with
  | EmptyString => EmptyString
  | String c s' => if is_space c then lstrip s' else s
  end.

Fixpoint rstrip (s : string) : string :=
  match s with
  | EmptyString => EmptyString
  | String c s' =>
      match rstrip s' with
      | EmptyString => if is_space c then EmptyString else String c EmptyString
      | r => String c r
      end
  end.

Definition strip (s : string) : string := rstrip (lstrip s).

(** [sep.join(l)]. *)
Definition join (sep : string) (l : list string) : string := String.concat sep l.

(** [str(n)] for a natural number. *)
Definition str_of_nat (n : nat) : string := NilZero.string_of_uint (Nat.to_uint n).

Definition dquote_char : ascii := ascii_of_nat 34.
Definition squote_char : ascii := ascii_of_nat 39.
Definition backslash_char : ascii := ascii_of_nat 92.
Definition newline_char : ascii := ascii_of_nat 10.
Definition return_char : ascii := ascii_of_nat 13.
Definition tab_char : ascii := ascii_of_nat 9.

Definition str1 (c : ascii) : string := String c EmptyString.

Definition dquote : string := str1 dquote_char.
Definition squote : string := str1 squote_char.
Definition newline : string := str1 newline_char.

End Text.

Import Text.

(** ** Literal escaping (lines 319-336) *)

(** The class [\w\s\-_.] whose complement the final [re.sub] deletes. *)
Definition literal_char (c : ascii) : bool :=
  is_word c || is_space c || is_code 45 c || is_code 95 c || is_code 46 c.

Definition _escape_sparql_string (text : string) : string :=
  if is_empty text then EmptyString else
  let text := replace backslash_char "\\" text in
  let text := replace dquote_char ("\" ++ dquote) text in
  let text := replace squote_char "\'" text in
  let text := replace newline_char "\n" text in
  let text := replace return_char "\r" text in
  let text := replace tab_char "\t" text in
  keep_only literal_char text.

(** A character [target] stands unescaped in [s] when it occurs outside the
    two-character sequences a backslash opens; a backslash that opens no
    sequence (the last character) is itself unescaped.  [esc] tells that the
    previous character opened a sequence. *)
Fixpoint unescaped_from (esc : bool) (target : ascii) (s : string) : bool :=
  match s with
  | EmptyString => esc && Ascii.eqb target backslash_char
  | String c s' =>
      if esc then unescaped_from false target s'
      else if Ascii.eqb c backslash_char then unescaped_from true target s'
      else Ascii.eqb c target || unescaped_from false target s'
  end.

Definition unescaped (target : ascii) (s : string) : bool :=
  unescaped_from false target s.

(** ** Regular expressions of the classifier

    The patterns of [query_patterns] use literals, [.], groups, [|], [?] and
    [+] only, and [re.search] is asked whether a match exists: that is
    membership of any1 substring in the pattern's language, decided here by
    derivatives. *)

Module Regex.

Inductive regex : Type :=
| Void
| Eps
| Chr (c : ascii)
| Dot                       (* [.]: any character but a newline *)
| Any                       (* any character *)
| Seq (r1 r2 : regex)
| Alt (r1 r2 : regex)
| Star (r : regex).

Fixpoint nullable (r : regex) : bool :=
  match r with
  | Void | Chr _ | Dot | Any => false
  | Eps | Star _ => true
  | Seq r1 r2 => nullable r1 && nullable r2
  | Alt r1 r2 => nullable r1 || nullable r2
  end.

Definition seq (r1 r2 : regex) : regex :=
  match r1, r2 with
  | Void, _ | _, Void => Void
  | Eps, _ => r2
  | _, Eps => r1
  | _, _ => Seq r1 r2
  end.

Definition alt (r1 r2 : regex) : regex :=
  match r1, r2 with
  | Void, _ => r2
  | _, Void => r1
  | _, _ => Alt r1 r2
  end.

Fixpoint deriv (a : ascii) (r : regex) : regex :=
  match r with
  | Void | Eps => Void
  | Chr c => if Ascii.eqb a c then Eps else Void
  | Dot => if Ascii.eqb a newline_char then Void else Eps
  | Any => Eps
  | Seq r1 r2 =>
      if nullable r1 then alt (seq (deriv a r1) r2) (deriv a r2)
      else seq (deriv a r1) r2
  | Alt r1 r2 => alt (deriv a r1) (deriv a r2)
  | Star r1 => seq (deriv a r1) (Star r1)
  end.

(** Some prefix of [s] is in the language of [r]. *)
Fixpoint matches_prefix (r : regex) (s : string) : bool :=
  nullable r ||
  match s with
  | EmptyString => false
  | String a s' => matches_prefix (deriv a r) s'
  end.

(** [re.search(r, s)] finds a match. *)
Definition search (r : regex) (s : string) : bool :=
  matches_prefix (Seq (Star Any) r) s.

Fixpoint lit (s : string) : regex :=
  match s with
  | EmptyString => Eps
  | String c s' => seq (Chr c) (lit s')
  end.

Definition opt (r : regex) : regex := Alt r Eps.
Definition plus (r : regex) : regex := Seq r (Star r).

(** The group [(.+)]. *)
Definition any1 : regex := plus Dot.

Definition cat (rs : list regex) : regex := fold_right seq Eps rs.

End Regex.

Import Regex.

(** ** Dicts as association lists *)

Section Dict.
Context {V : Type}.

Fixpoint dict_get (k : string) (d : list (string * V)) : option V :=
  match d with
  | [] => None
  | (k', v) :: d' => if String.eqb k k' then Some v else dict_get k d'
  end.

(** [d[k] = v]: an existing key keeps its place, a new key goes last. *)
Fixpoint dict_set (k : string) (v : V) (d : list (string * V)) : list (string * V) :=
  match d with
  | [] => [(k, v)]
  | (k', v') :: d' =>
      if String.eqb k k' then (k, v) :: d' else (k', v') :: dict_set k v d'
  end.

End Dict.

(** [sorted(l, key=..., reverse=True)]: stable, so elements with equal keys
    keep their order in [l].  [lt x y] tells that the key of [x] is below the
    key of [y]. *)
Section Sorted.
Context {A : Type} (lt : A -> A -> bool).

Fixpoint insert_desc (x : A) (l : list A) : list A :=
  match l with
  | [] => [x]
  | y :: l' => if lt x y then y :: insert_desc x l' else x :: l
  end.

Definition sorted_reverse (l : list A) : list A := fold_right insert_desc [] l.

End Sorted.

(** ** The classifier's tables (lines 32-110) *)

Definition query_patterns : list (string * list regex) :=
  [ ("definition",
      [ cat [lit "what is "; opt (alt (lit "a ") (lit "an ")); any1];
        cat [lit "define "; any1];
        cat [lit "explain "; any1];
        cat [lit "describe "; any1];
        cat [lit "tell me about "; any1];
        cat [lit "give me information about "; any1];
        cat [any1; lit " definition"] ]);
    ("relationship",
      [ cat [lit "how "; opt (alt (lit "is ") (lit "are ")); any1; lit " related to "; any1];
        cat [lit "what "; any1; lit " connect"; any1; lit " to "; any1];
        cat [lit "relationship between "; any1; lit " and "; any1];
        cat [any1; lit " related to "; any1];
        cat [lit "how do "; any1; lit " and "; any1; lit " interact"];
        cat [lit "connection between "; any1; lit " and "; any1] ]);
    ("property",
      [ cat [lit "what "; any1; lit " properties "; any1; lit " "; alt (lit "have") (lit "has")];
        cat [lit "what attributes "; any1; lit " "; alt (lit "have") (lit "has")];
        cat [lit "properties of "; any1];
        cat [lit "attributes of "; any1];
        cat [lit "characteristics of "; any1];
        cat [lit "what can "; any1; lit " do"];
        cat [lit "capabilities of "; any1] ]);
    ("listing",
      [ cat [lit "list "; any1];
        cat [lit "show me "; any1];
        cat [lit "find all "; any1];
        cat [lit "what are "; any1];
        cat [lit "give me all "; any1];
        cat [lit "enumerate "; any1];
        cat [lit "all "; any1; lit " in "; any1] ]);
    ("comparison",
      [ cat [lit "difference between "; any1; lit " and "; any1];
        cat [lit "compare "; any1; lit " "; alt (lit "and") (lit "with"); lit " "; any1];
        cat [any1; lit " vs "; any1];
        cat [any1; lit " versus "; any1];
        cat [lit "how "; any1; lit " different from "; any1];
        cat [lit "similarities between "; any1; lit " and "; any1] ]);
    ("hierarchical",
      [ cat [lit "what are the subclasses of "; any1];
        cat [lit "what are the superclasses of "; any1];
        cat [any1; lit " hierarchy"];
        cat [lit "children of "; any1];
        cat [lit "parents of "; any1];
        cat [lit "what inherits from "; any1];
        cat [lit "what does "; any1; lit " inherit from"] ]);
    ("existence",
      [ cat [lit "does "; any1; lit " exist"];
        cat [lit "is there "; any1];
        cat [lit "are there any "; any1];
        cat [lit "do we have "; any1];
        cat [lit "can you find "; any1] ]);
    ("count",
      [ cat [lit "how many "; any1];
        cat [lit "count "; any1];
        cat [lit "number of "; any1];
        cat [lit "total "; any1] ]) ].

Definition intent_keywords : list (string * list string) :=
  [ ("definition", ["what"; "define"; "explain"; "describe"; "meaning"; "definition"]);
    ("relationship", ["related"; "relationship"; "connection"; "interact"; "connect"]);
    ("property", ["property"; "properties"; "attribute"; "attributes"; "characteristic"]);
    ("listing", ["list"; "show"; "all"; "find"; "enumerate"; "give me"]);
    ("comparison", ["difference"; "compare"; "vs"; "versus"; "different"; "similar"]);
    ("hierarchical", ["subclass"; "superclass"; "hierarchy"; "inherit"; "parent"; "child"]);
    ("existence", ["exist"; "there"; "any"; "have"; "find"]);
    ("count", ["many"; "count"; "number"; "total"; "how much"]) ].

(** ** Text normaliser (lines 514-531) *)

(** [re.sub(r'\s+', ' ', s)]: [in_run] tells that the previous character was
    whitespace, so the run has been replaced already. *)
Fixpoint collapse_spaces (in_run : bool) (s : string) : string :=
  match s with
  | EmptyString => EmptyString
  | String c s' =>
      if is_space c
      then if in_run then collapse_spaces true s'
           else String " "%char (collapse_spaces true s')
      else String c (collapse_spaces false s')
  end.

(** [s] starts with [word] in any letter case, and no word character
    follows: the tail [word\b] of an abbreviation pattern. *)
Definition at_word (word s : string) : bool :=
  startswith word (lower (substring 0 (len word) s)) &&
  match get (len word) s with
  | Some c => negb (is_word c)
  | None => true
  end.

(** [re.sub(r'\bword\b', expansion, s, flags=re.IGNORECASE)] for a [word] of
    ASCII letters.  [prev] tells that the previous character is a word
    character; [skip] counts the characters of a replaced match still to
    pass. *)
Fixpoint sub_word (word expansion : string) (prev : bool) (skip : nat) (s : string) : string :=
  match s with
  | EmptyString => EmptyString
  | String c s' =>
      match skip with
      | S k => sub_word word expansion (is_word c) k s'
      | O =>
          if negb prev && at_word word s
          then expansion ++ sub_word word expansion (is_word c) (Nat.pred (len word)) s'
          else String c (sub_word word expansion (is_word c) 0 s')
      end
  end.

Definition abbreviations : list (string * string) :=
  [ ("whats", "what is"); ("whos", "who is"); ("wheres", "where is");
    ("hows", "how is"); ("whens", "when is") ].

Definition _preprocess_query (query : string) : string :=
  let query := collapse_spaces false (strip query) in
  fold_left (fun q ab => sub_word (fst ab) (snd ab) false 0 q) abbreviations query.

(** ** Intent classifier (lines 533-564) *)

Module Classification.
Record t : Type := {
  primary_intent : string;
  secondary_intent : option string;
  confidence : Q;
  all_scores : list (string * Q)
}.
End Classification.

Definition pattern_score (query_lower : string) (patterns : list regex) : nat :=
  List.length (filter (fun p => search p query_lower) patterns).

Definition keyword_score (query_lower : string) (keywords : list string) : nat :=
  List.length (filter (fun k => contains k query_lower) keywords).

Definition Qof (n : nat) : Q := inject_Z (Z.of_nat n).

Definition Qltb (x y : Q) : bool := negb (Qle_bool y x).

Definition intent_scores (query_lower : string) : list (string * Q) :=
  let after_patterns :=
    fold_left (fun d ip => dict_set (fst ip) (Qof (pattern_score query_lower (snd ip))) d)
              query_patterns [] in
  fold_left (fun d ik =>
               let old := match dict_get (fst ik) d with Some v => v | None => 0%Q end in
               dict_set (fst ik)
                        (old + Qof (keyword_score query_lower (snd ik)) * (1 # 2))%Q d)
            intent_keywords after_patterns.

Definition _classify_query_enhanced (query : string) : Classification.t :=
  let query_lower := strip (lower query) in
  let sorted_intents :=
    sorted_reverse (fun x y => Qltb (snd x) (snd y)) (intent_scores query_lower) in
  match sorted_intents with
  | [] =>
      (* not reached: the score table has the eight intents *)
      {| Classification.primary_intent := "general";
         Classification.secondary_intent := None;
         Classification.confidence := 0;
         Classification.all_scores := [] |}
  | first :: rest =>
      {| Classification.primary_intent :=
           if Qltb 0 (snd first) then fst first else "general";
         Classification.secondary_intent :=
           match rest with
           | second :: _ => if Qltb 0 (snd second) then Some (fst second) else None
           | [] => None
           end;
         Classification.confidence := snd first;
         Classification.all_scores := sorted_intents |}
  end.

(** ** Concept extractor (lines 566-609) *)

Definition stop_words : list string :=
  [ "what"; "is"; "are"; "the"; "a"; "an"; "and"; "or"; "but"; "in"; "on"; "at"; "to"; "for";
    "of"; "with"; "by"; "how"; "why"; "when"; "where"; "who"; "which"; "that"; "this";
    "tell"; "me"; "about"; "show"; "find"; "list"; "describe"; "explain"; "define";
    "do"; "does"; "did"; "can"; "could"; "would"; "should"; "will"; "have"; "has"; "had" ].

Definition mem (x : string) (l : list string) : bool :=
  existsb (String.eqb x) l.

(** Where the scan of [\b[a-zA-Z]+\b] stands: outside any run of word
    characters, inside a run made of ASCII letters so far, or inside a run
    that holds some other word character and so can yield no match. *)
Inductive word_scan : Type :=
| Outside
| Letters (acc : string)
| Spoiled.

(** [re.findall(r'\b[a-zA-Z]+\b', s)]: a match starts and ends at a word
    boundary, so the matches are the maximal runs of word characters that
    consist of ASCII letters only. *)
Fixpoint findall_words (st : word_scan) (s : string) : list string :=
  match s with
  | EmptyString =>
      match st with Letters acc => [acc] | _ => [] end
  | String c s' =>
      if is_ascii_letter c then
        match st with
        | Outside => findall_words (Letters (str1 c)) s'
        | Letters acc => findall_words (Letters (acc ++ str1 c)) s'
        | Spoiled => findall_words Spoiled s'
        end
      else if is_word c then findall_words Spoiled s'
      else
        match st with
        | Letters acc => acc :: findall_words Outside s'
        | _ => findall_words Outside s'
        end
  end.

(** [re.findall] of a quoted group: [q([^q]+)q] for the quote character [q].
    [open] holds what follows the last candidate opening quote. *)
Fixpoint findall_quoted (q : ascii) (open : option string) (s : string) : list string :=
  match s with
  | EmptyString => []
  | String c s' =>
      if Ascii.eqb c q then
        match open with
        | None => findall_quoted q (Some EmptyString) s'
        | Some EmptyString => findall_quoted q (Some EmptyString) s'
        | Some acc => acc :: findall_quoted q None s'
        end
      else
        match open with
        | None => findall_quoted q None s'
        | Some acc => findall_quoted q (Some (acc ++ str1 c)) s'
        end
  end.

(** The loop over [range(len(concepts) - 1)] that builds bigrams and
    trigrams, on the suffix of [concepts] from the current index. *)
Fixpoint multi_word_concepts (concepts : list string) : list string :=
  match concepts with
  | c0 :: ((c1 :: rest) as tail) =>
      let here :=
        if (3 <? len c0) && (3 <? len c1)
        then (c0 ++ " " ++ c1) ::
             match rest with
             | c2 :: _ =>
                 if 3 <? len c2 then [c0 ++ " " ++ c1 ++ " " ++ c2] else []
             | [] => []
             end
        else [] in
      app here (multi_word_concepts tail)
  | _ => []
  end.

(** The score of a concept: occurrences in the lower-cased query, plus one
    when the first occurrence starts before [len(query) * 0.3].  An index [i]
    and a length [n] satisfy [i < n * 0.3] in floats exactly when
    [10 * i < 3 * n]. *)
Definition concept_score (query concept : string) : nat :=
  let score := count (lower concept) (lower query) in
  if (10 * find (lower concept) (lower query) <? 3 * Z.of_nat (len query))%Z
  then score + 1 else score.

(** [set_order l] is the order in which Python iterates [set(l)]. *)
Definition _extract_key_concepts_enhanced
    (set_order : list string -> list string) (query : string) : list string :=
  let words := findall_words Outside (lower query) in
  let concepts :=
    filter (fun word => negb (mem word stop_words) && (2 <? len word)) words in
  let multi_words := multi_word_concepts concepts in
  let quoted_phrases :=
    (findall_quoted dquote_char None query ++ findall_quoted squote_char None query)%list in
  let all_concepts := set_order (concepts ++ multi_words ++ quoted_phrases)%list in
  let scored_concepts := map (fun concept => (concept, concept_score query concept)) all_concepts in
  let sorted_concepts := sorted_reverse (fun x y => snd x <? snd y) scored_concepts in
  map fst sorted_concepts.

(** What the language guarantees of the iteration of a set built from [l]:
    every element of [l], once, in some order. *)
Definition set_iteration (set_order : list string -> list string) : Prop :=
  forall l, NoDup (set_order l) /\ forall x, In x (set_order l) <-> In x l.

(** One such order: first occurrences, left to right. *)
Definition first_seen (l : list string) : list string :=
  rev (nodup string_dec (rev l)).

(** Another: the reverse of it. *)
Definition last_first (l : list string) : list string :=
  nodup string_dec (rev l).

(** ** Structured query specs *)

Module QuerySpec.
Record t : Type := {
  type : string;
  query : string;
  description : string
}.
End QuerySpec.

(** ** Query builders that escape their literal (lines 180-317)

    The source holds a first copy of the synthesizer (lines 113-178) that
    renders each query through these builders; the class body defines
    [_generate_targeted_sparql_queries] a second time further down, and that
    later definition is the one bound to the name. *)
Definition _build_list_classes_query (concept : string) : string :=
  "
PREFIX rdf: <http://www.w3.org/1999/02/22-rdf-syntax-ns#>
PREFIX rdfs: <http://www.w3.org/2000/01/rdf-schema#>
PREFIX owl: <http://www.w3.org/2002/07/owl#>

SELECT ?class ?label WHERE {
    ?class rdf:type owl:Class .
    OPTIONAL { ?class rdfs:label ?label }
    FILTER(
        CONTAINS(LCASE(STR(?class)), LCASE(" ++ dquote ++ (_escape_sparql_string concept) ++ dquote ++ ")) || 
        CONTAINS(LCASE(STR(?label)), LCASE(" ++ dquote ++ (_escape_sparql_string concept) ++ dquote ++ "))
    )
} 
ORDER BY ?class
LIMIT 20
".
Definition _build_list_properties_query (concept : string) : string :=
  "
PREFIX rdf: <http://www.w3.org/1999/02/22-rdf-syntax-ns#>
PREFIX rdfs: <http://www.w3.org/2000/01/rdf-schema#>
PREFIX owl: <http://www.w3.org/2002/07/owl#>

SELECT ?property ?label ?type WHERE {
    {
        ?property rdf:type owl:ObjectProperty .
        BIND(" ++ dquote ++ "ObjectProperty" ++ dquote ++ " AS ?type)
    } UNION {
        ?property rdf:type owl:DatatypeProperty .
        BIND(" ++ dquote ++ "DatatypeProperty" ++ dquote ++ " AS ?type)
    }
    OPTIONAL { ?property rdfs:label ?label }
    FILTER(
        CONTAINS(LCASE(STR(?property)), LCASE(" ++ dquote ++ (_escape_sparql_string concept) ++ dquote ++ ")) || 
        CONTAINS(LCASE(STR(?label)), LCASE(" ++ dquote ++ (_escape_sparql_string concept) ++ dquote ++ "))
    )
} 
ORDER BY ?property
LIMIT 15
".
Definition _build_subclasses_query (concept : string) : string :=
  "
PREFIX rdf: <http://www.w3.org/1999/02/22-rdf-syntax-ns#>
PREFIX rdfs: <http://www.w3.org/2000/01/rdf-schema#>
PREFIX owl: <http://www.w3.org/2002/07/owl#>

SELECT ?subclass ?label WHERE {
    ?class rdf:type owl:Class .
    ?subclass rdfs:subClassOf ?class .
    ?subclass rdf:type owl:Class .
    OPTIONAL { ?subclass rdfs:label ?label }
    OPTIONAL { ?class rdfs:label ?classLabel }
    FILTER(
        CONTAINS(LCASE(STR(?class)), LCASE(" ++ dquote ++ (_escape_sparql_string concept) ++ dquote ++ ")) || 
        CONTAINS(LCASE(STR(?classLabel)), LCASE(" ++ dquote ++ (_escape_sparql_string concept) ++ dquote ++ "))
    )
} 
ORDER BY ?subclass
LIMIT 15
".
Definition _build_superclasses_query (concept : string) : string :=
  "
PREFIX rdf: <http://www.w3.org/1999/02/22-rdf-syntax-ns#>
PREFIX rdfs: <http://www.w3.org/2000/01/rdf-schema#>
PREFIX owl: <http://www.w3.org/2002/07/owl#>

SELECT ?superclass ?label WHERE {
    ?class rdf:type owl:Class .
    ?class rdfs:subClassOf ?superclass .
    ?superclass rdf:type owl:Class .
    OPTIONAL { ?superclass rdfs:label ?label }
    OPTIONAL { ?class rdfs:label ?classLabel }
    FILTER(
        CONTAINS(LCASE(STR(?class)), LCASE(" ++ dquote ++ (_escape_sparql_string concept) ++ dquote ++ ")) || 
        CONTAINS(LCASE(STR(?classLabel)), LCASE(" ++ dquote ++ (_escape_sparql_string concept) ++ dquote ++ "))
    )
} 
ORDER BY ?superclass
LIMIT 15
".
Definition _build_relationships_query (concept1 concept2 : string) : string :=
  "
PREFIX rdf: <http://www.w3.org/1999/02/22-rdf-syntax-ns#>
PREFIX rdfs: <http://www.w3.org/2000/01/rdf-schema#>
PREFIX owl: <http://www.w3.org/2002/07/owl#>

SELECT ?subject ?predicate ?object ?subjectLabel ?objectLabel WHERE {
    ?subject ?predicate ?object .
    OPTIONAL { ?subject rdfs:label ?subjectLabel }
    OPTIONAL { ?object rdfs:label ?objectLabel }
    FILTER(
        (
            CONTAINS(LCASE(STR(?subject)), LCASE(" ++ dquote ++ (_escape_sparql_string concept1) ++ dquote ++ ")) || 
            CONTAINS(LCASE(STR(?subjectLabel)), LCASE(" ++ dquote ++ (_escape_sparql_string concept1) ++ dquote ++ "))
        ) && (
            CONTAINS(LCASE(STR(?object)), LCASE(" ++ dquote ++ (_escape_sparql_string concept2) ++ dquote ++ ")) || 
            CONTAINS(LCASE(STR(?objectLabel)), LCASE(" ++ dquote ++ (_escape_sparql_string concept2) ++ dquote ++ "))
        )
    ) || (
        (
            CONTAINS(LCASE(STR(?subject)), LCASE(" ++ dquote ++ (_escape_sparql_string concept2) ++ dquote ++ ")) || 
            CONTAINS(LCASE(STR(?subjectLabel)), LCASE(" ++ dquote ++ (_escape_sparql_string concept2) ++ dquote ++ "))
        ) && (
            CONTAINS(LCASE(STR(?object)), LCASE(" ++ dquote ++ (_escape_sparql_string concept1) ++ dquote ++ ")) || 
            CONTAINS(LCASE(STR(?objectLabel)), LCASE(" ++ dquote ++ (_escape_sparql_string concept1) ++ dquote ++ "))
        )
    )
    FILTER(?predicate != rdf:type)
} 
ORDER BY ?subject ?predicate
LIMIT 20
".
Definition _build_count_classes_query (concept : string) : string :=
  "
PREFIX rdf: <http://www.w3.org/1999/02/22-rdf-syntax-ns#>
PREFIX rdfs: <http://www.w3.org/2000/01/rdf-schema#>
PREFIX owl: <http://www.w3.org/2002/07/owl#>

SELECT (COUNT(DISTINCT ?class) AS ?count) WHERE {
    ?class rdf:type owl:Class .
    OPTIONAL { ?class rdfs:label ?label }
    FILTER(
        CONTAINS(LCASE(STR(?class)), LCASE(" ++ dquote ++ (_escape_sparql_string concept) ++ dquote ++ ")) || 
        CONTAINS(LCASE(STR(?label)), LCASE(" ++ dquote ++ (_escape_sparql_string concept) ++ dquote ++ "))
    )
}
".

(** ** Structured query synthesizer

    The first definition (lines 113-178), which the later one replaces. *)

Module Shadowed.

Definition _generate_targeted_sparql_queries
    (query : string) (classification : Classification.t) (concepts : list string)
    : list QuerySpec.t :=
  let primary_intent := Classification.primary_intent classification in
  if String.eqb primary_intent "listing" then
    flat_map (fun concept =>
      [ {| QuerySpec.type := "list_classes";
           QuerySpec.query := _build_list_classes_query concept;
           QuerySpec.description := "Classes related to " ++ dquote ++ concept ++ dquote |};
        {| QuerySpec.type := "list_properties";
           QuerySpec.query := _build_list_properties_query concept;
           QuerySpec.description := "Properties related to " ++ dquote ++ concept ++ dquote |} ])
      (firstn 3 concepts)
  else if String.eqb primary_intent "hierarchical" then
    flat_map (fun concept =>
      [ {| QuerySpec.type := "subclasses";
           QuerySpec.query := _build_subclasses_query concept;
           QuerySpec.description :=
             "Subclasses of classes related to " ++ dquote ++ concept ++ dquote |};
        {| QuerySpec.type := "superclasses";
           QuerySpec.query := _build_superclasses_query concept;
           QuerySpec.description :=
             "Superclasses of classes related to " ++ dquote ++ concept ++ dquote |} ])
      (firstn 2 concepts)
  else if String.eqb primary_intent "relationship" then
    match concepts with
    | concept1 :: concept2 :: _ =>
        [ {| QuerySpec.type := "relationships";
             QuerySpec.query := _build_relationships_query concept1 concept2;
             QuerySpec.description :=
               "Relationships between " ++ dquote ++ concept1 ++ dquote ++
               " and " ++ dquote ++ concept2 ++ dquote |} ]
    | _ => []
    end
  else if String.eqb primary_intent "count" then
    map (fun concept =>
      {| QuerySpec.type := "count_classes";
         QuerySpec.query := _build_count_classes_query concept;
         QuerySpec.description :=
           "Count of classes related to " ++ dquote ++ concept ++ dquote |})
      (firstn 2 concepts)
  else [].

End Shadowed.

(** The definition in force (lines 705-823): every template is written in
    place and takes the concept as it comes. *)

Definition _generate_targeted_sparql_queries
    (query : string) (classification : Classification.t) (concepts : list string)
    : list QuerySpec.t :=
  let primary_intent := Classification.primary_intent classification in
  if String.eqb primary_intent "listing" then
    flat_map (fun concept =>
      [ {| QuerySpec.type := "list_classes";
           QuerySpec.query := "
                        SELECT ?class ?label WHERE {
                            ?class rdf:type owl:Class .
                            OPTIONAL { ?class rdfs:label ?label }
                            FILTER(CONTAINS(LCASE(STR(?class)), LCASE(" ++ dquote ++ concept ++ dquote ++ ")) || 
                                   CONTAINS(LCASE(STR(?label)), LCASE(" ++ dquote ++ concept ++ dquote ++ ")))
                        } LIMIT 20
                        ";
           QuerySpec.description := "Classes related to " ++ dquote ++ concept ++ dquote |};
        {| QuerySpec.type := "list_properties";
           QuerySpec.query := "
                        SELECT ?property ?label ?type WHERE {
                            {
                                ?property rdf:type owl:ObjectProperty .
                                BIND(" ++ dquote ++ "ObjectProperty" ++ dquote ++ " AS ?type)
                            } UNION {
                                ?property rdf:type owl:DatatypeProperty .
                                BIND(" ++ dquote ++ "DatatypeProperty" ++ dquote ++ " AS ?type)
                            }
                            OPTIONAL { ?property rdfs:label ?label }
                            FILTER(CONTAINS(LCASE(STR(?property)), LCASE(" ++ dquote ++ concept ++ dquote ++ ")) || 
                                   CONTAINS(LCASE(STR(?label)), LCASE(" ++ dquote ++ concept ++ dquote ++ ")))
                        } LIMIT 15
                        ";
           QuerySpec.description := "Properties related to " ++ dquote ++ concept ++ dquote |} ])
      (firstn 3 concepts)
  else if String.eqb primary_intent "hierarchical" then
    flat_map (fun concept =>
      [ {| QuerySpec.type := "subclasses";
           QuerySpec.query := "
                        SELECT ?subclass ?label WHERE {
                            ?class rdf:type owl:Class .
                            ?subclass rdfs:subClassOf ?class .
                            OPTIONAL { ?subclass rdfs:label ?label }
                            FILTER(CONTAINS(LCASE(STR(?class)), LCASE(" ++ dquote ++ concept ++ dquote ++ ")) || 
                                   CONTAINS(LCASE(STR(?label)), LCASE(" ++ dquote ++ concept ++ dquote ++ ")))
                        } LIMIT 15
                        ";
           QuerySpec.description :=
             "Subclasses of classes related to " ++ dquote ++ concept ++ dquote |};
        {| QuerySpec.type := "superclasses";
           QuerySpec.query := "
                        SELECT ?superclass ?label WHERE {
                            ?class rdf:type owl:Class .
                            ?class rdfs:subClassOf ?superclass .
                            OPTIONAL { ?superclass rdfs:label ?label }
                            FILTER(CONTAINS(LCASE(STR(?class)), LCASE(" ++ dquote ++ concept ++ dquote ++ ")) || 
                                   CONTAINS(LCASE(STR(?label)), LCASE(" ++ dquote ++ concept ++ dquote ++ ")))
                        } LIMIT 15
                        ";
           QuerySpec.description :=
             "Superclasses of classes related to " ++ dquote ++ concept ++ dquote |} ])
      (firstn 2 concepts)
  else if String.eqb primary_intent "relationship" then
    match concepts with
    | concept1 :: concept2 :: _ =>
        [ {| QuerySpec.type := "relationships";
             QuerySpec.query := "
                        SELECT ?subject ?predicate ?object WHERE {
                            ?subject ?predicate ?object .
                            FILTER(
                                (CONTAINS(LCASE(STR(?subject)), LCASE(" ++ dquote ++ concept1 ++ dquote ++ ")) && 
                                 CONTAINS(LCASE(STR(?object)), LCASE(" ++ dquote ++ concept2 ++ dquote ++ "))) ||
                                (CONTAINS(LCASE(STR(?subject)), LCASE(" ++ dquote ++ concept2 ++ dquote ++ ")) && 
                                 CONTAINS(LCASE(STR(?object)), LCASE(" ++ dquote ++ concept1 ++ dquote ++ ")))
                            )
                        } LIMIT 20
                        ";
             QuerySpec.description :=
               "Relationships between " ++ dquote ++ concept1 ++ dquote ++
               " and " ++ dquote ++ concept2 ++ dquote |} ]
    | _ => []
    end
  else if String.eqb primary_intent "count" then
    map (fun concept =>
      {| QuerySpec.type := "count_classes";
         QuerySpec.query := "
                        SELECT (COUNT(?class) AS ?count) WHERE {
                            ?class rdf:type owl:Class .
                            OPTIONAL { ?class rdfs:label ?label }
                            FILTER(CONTAINS(LCASE(STR(?class)), LCASE(" ++ dquote ++ concept ++ dquote ++ ")) || 
                                   CONTAINS(LCASE(STR(?label)), LCASE(" ++ dquote ++ concept ++ dquote ++ ")))
                        }
                        ";
         QuerySpec.description :=
           "Count of classes related to " ++ dquote ++ concept ++ dquote |})
      (firstn 2 concepts)
  else [].

(** ** Retrieval results *)

Inductive outcome (A : Type) : Type :=
| Ok (a : A)
| Raise (e : string).
Arguments Ok {A} a.
Arguments Raise {A} e.

(** A dict from names to strings, in insertion order. *)
Definition dict : Type := list (string * string).

(** The truth value of [d.get(k)]. *)
Definition get_truthy (k : string) (d : dict) : bool :=
  match dict_get k d with
  | Some v => negb (is_empty v)
  | None => false
  end.

Definition is_nil {A : Type} (l : list A) : bool :=
  match l with [] => true | _ => false end.

Module Related.
Record t : Type := { uri : string; local_name : string }.
End Related.

Module Labelled.
Record t : Type := { uri : string; label : string }.
End Labelled.

Module Usage.
Record t : Type := { subject : string; object : string }.
End Usage.

(** A semantic hit.  The optional keys of the dict are lists (absent is
    empty) or options. *)
Module Entity.
Record t : Type := {
  uri : string;
  local_name : string;
  type : string;
  labels : list string;
  comments : list string;
  similarity_score : option Q;
  related_entities : list Related.t;
  instances : list Labelled.t;
  sibling_classes : list Labelled.t;
  usage_examples : list Usage.t
}.
End Entity.

Module DirectResult.
Record t : Type := {
  query_type : string;
  sparql_query : string;
  results : list dict;
  description : string
}.
End DirectResult.

Module Result.
Record t : Type := {
  original_query : string;
  cleaned_query : string;
  query_classification : Classification.t;
  key_concepts : list string;
  vector_search_results : list Entity.t;
  sparql_chain_result : option dict;
  direct_sparql_results : list DirectResult.t;
  context : string;
  success : bool;
  processing_method : list string;
  enhanced_entities : option (list Entity.t)
}.
End Result.

(** ** External collaborators

    The graph manager, the vector store and the runtime, as the processor
    calls them.  [vector_store] is [None] when no store is configured;
    [sparql_chain] tells whether the chain is available; [format_3f] renders a
    float with three decimals. *)
Record environment : Type := {
  set_order : list string -> list string;
  vector_store : option (string -> Z -> outcome (list Entity.t));
  sparql_chain : bool;
  query_with_langchain : string -> outcome (option dict);
  query_sparql : string -> outcome (list dict);
  find_related_entities : string -> outcome (list Related.t);
  get_schema_summary : outcome string;
  _get_local_name : string -> string;
  format_3f : Q -> string
}.

(** ** Entity enricher (lines 611-703) *)

(** A list comprehension over rows that reads a mandatory key: one missing
    key raises for the whole comprehension. *)
Fixpoint rows_to {A : Type} (f : dict -> option A) (rows : list dict) : option (list A) :=
  match rows with
  | [] => Some []
  | r :: rows' =>
      match f r, rows_to f rows' with
      | Some a, Some l => Some (a :: l)
      | _, _ => None
      end
  end.

Definition labelled_rows (env : environment) (key : string) (rows : list dict)
    : list Labelled.t :=
  match rows_to (fun r =>
                   match dict_get key r with
                   | Some u =>
                       Some {| Labelled.uri := u;
                               Labelled.label :=
                                 match dict_get "label" r with
                                 | Some l => l
                                 | None => _get_local_name env u
                                 end |}
                   | None => None
                   end) rows with
  | Some l => l
  | None => []
  end.

Definition _find_class_instances (env : environment) (class_uri : string) : list Labelled.t :=
  let query := "
            SELECT ?instance ?label WHERE {
                ?instance rdf:type <" ++ class_uri ++ "> .
                OPTIONAL { ?instance rdfs:label ?label }
            } LIMIT 10
            " in
  match query_sparql env query with
  | Ok results => labelled_rows env "instance" results
  | Raise _ => []
  end.

Definition _find_sibling_classes (env : environment) (class_uri : string) : list Labelled.t :=
  let query := "
            SELECT ?sibling ?label WHERE {
                <" ++ class_uri ++ "> rdfs:subClassOf ?parent .
                ?sibling rdfs:subClassOf ?parent .
                FILTER(?sibling != <" ++ class_uri ++ ">)
                OPTIONAL { ?sibling rdfs:label ?label }
            } LIMIT 10
            " in
  match query_sparql env query with
  | Ok results => labelled_rows env "sibling" results
  | Raise _ => []
  end.

Definition _find_property_usage_examples (env : environment) (property_uri : string)
    : list Usage.t :=
  let query := "
            SELECT ?subject ?object WHERE {
                ?subject <" ++ property_uri ++ "> ?object .
            } LIMIT 5
            " in
  match query_sparql env query with
  | Ok results =>
      match rows_to (fun r =>
                       match dict_get "subject" r, dict_get "object" r with
                       | Some s, Some o =>
                           Some {| Usage.subject := _get_local_name env s;
                                   Usage.object := o |}
                       | _, _ => None
                       end) results with
      | Some l => l
      | None => []
      end
  | Raise _ => []
  end.

Definition _enhance_entity_with_relations (env : environment) (entity : Entity.t) : Entity.t :=
  match find_related_entities env (Entity.uri entity) with
  | Raise _ => entity
  | Ok related =>
      let with_related (instances siblings : list Labelled.t) (usage : list Usage.t) :=
        {| Entity.uri := Entity.uri entity;
           Entity.local_name := Entity.local_name entity;
           Entity.type := Entity.type entity;
           Entity.labels := Entity.labels entity;
           Entity.comments := Entity.comments entity;
           Entity.similarity_score := Entity.similarity_score entity;
           Entity.related_entities := firstn 8 related;
           Entity.instances := instances;
           Entity.sibling_classes := siblings;
           Entity.usage_examples := usage |} in
      if String.eqb (Entity.type entity) "Class" then
        with_related (firstn 5 (_find_class_instances env (Entity.uri entity)))
                     (firstn 5 (_find_sibling_classes env (Entity.uri entity)))
                     (Entity.usage_examples entity)
      else if String.eqb (Entity.type entity) "ObjectProperty"
              || String.eqb (Entity.type entity) "DatatypeProperty" then
        with_related (Entity.instances entity) (Entity.sibling_classes entity)
                     (firstn 3 (_find_property_usage_examples env (Entity.uri entity)))
      else
        with_related (Entity.instances entity) (Entity.sibling_classes entity)
                     (Entity.usage_examples entity)
  end.

(** ** Context assembler (lines 825-904) *)

Notation "l1 +++ l2" := (@app string l1 l2) (at level 60, right associativity).

(** [enumerate(l, i)]. *)
Fixpoint enumerate {A : Type} (i : nat) (l : list A) : list (nat * A) :=
  match l with
  | [] => []
  | x :: l' => (i, x) :: enumerate (S i) l'
  end.

Definition when (b : bool) (lines : list string) : list string :=
  if b then lines else [].

Definition entity_lines (env : environment) (ie : nat * Entity.t) : list string :=
  let (i, entity) := ie in
  ([ str_of_nat i ++ ". " ++ Entity.local_name entity ++ " (" ++ Entity.type entity ++ ")";
     "   URI: " ++ Entity.uri entity ] +++
   when (negb (is_nil (Entity.labels entity)))
        [ "   Labels: " ++ join ", " (Entity.labels entity) ] +++
   when (negb (is_nil (Entity.comments entity)))
        [ "   Description: " ++ join " " (firstn 2 (Entity.comments entity)) ] +++
   when (negb (is_nil (Entity.related_entities entity)))
        [ "   Related to: " ++
          join ", " (map Related.local_name (firstn 3 (Entity.related_entities entity))) ] +++
   when (negb (is_nil (Entity.instances entity)))
        [ "   Examples: " ++
          join ", " (map Labelled.label (firstn 3 (Entity.instances entity))) ] +++
   [ "   Similarity Score: " ++
     format_3f env (match Entity.similarity_score entity with
                    | Some x => x
                    | None => 0%Q
                    end);
     "" ]).

Definition direct_result_lines (sparql_result : DirectResult.t) : list string :=
  ([ DirectResult.description sparql_result ++ ":" ] +++
   map (fun ir : nat * dict =>
          let (i, res) := ir in
          let result_str :=
            join ", " (map (fun kv => fst kv ++ ": " ++ snd kv)
                           (filter (fun kv => negb (is_empty (snd kv))) res)) in
          "  " ++ str_of_nat i ++ ". " ++ result_str)
       (enumerate 1 (firstn 5 (DirectResult.results sparql_result))) +++
   [ "" ]).

(** The truth value of [result.get('sparql_chain_result')]. *)
Definition chain_truthy (result : Result.t) : bool :=
  match Result.sparql_chain_result result with
  | Some d => negb (is_nil d)
  | None => false
  end.

Definition chain_dict (result : Result.t) : dict :=
  match Result.sparql_chain_result result with
  | Some d => d
  | None => []
  end.

Definition header_lines (result : Result.t) : list string :=
  let classification := Result.query_classification result in
  ([ "User Query: " ++ Result.original_query result;
     "Query Intent: " ++ Classification.primary_intent classification ] +++
   match Classification.secondary_intent classification with
   | Some s => when (negb (is_empty s)) [ "Secondary Intent: " ++ s ]
   | None => []
   end +++
   [ "Key Concepts: " ++ join ", " (firstn 5 (Result.key_concepts result)); "" ]).

Definition chain_lines (result : Result.t) : list string :=
  when (chain_truthy result && negb (get_truthy "error" (chain_dict result)))
    ([ "=== LANGCHAIN SPARQL ANALYSIS ===" ] +++
     match dict_get "answer" (chain_dict result) with
     | Some a => when (negb (is_empty a)) [ "Generated Answer: " ++ a ]
     | None => []
     end +++
     match dict_get "sparql_query" (chain_dict result) with
     | Some q => when (negb (is_empty q)) [ "SPARQL Query Used: " ++ q ]
     | None => []
     end +++
     [ "" ]).

Definition vector_lines (env : environment) (result : Result.t) : list string :=
  when (negb (is_nil (Result.vector_search_results result)))
    ([ "=== RELEVANT ENTITIES FROM KNOWLEDGE GRAPH ===" ] +++
     flat_map (entity_lines env)
              (enumerate 1 (firstn 5 (Result.vector_search_results result)))).

Definition direct_lines (result : Result.t) : list string :=
  when (negb (is_nil (Result.direct_sparql_results result)))
    ([ "=== ADDITIONAL SPARQL QUERY RESULTS ===" ] +++
     flat_map direct_result_lines (Result.direct_sparql_results result)).

(** The schema overview is wanted when there are no semantic hits and the
    chain result is [None] or an empty dict. *)
Definition wants_schema (result : Result.t) : bool :=
  is_nil (Result.vector_search_results result) && negb (chain_truthy result).

Definition instruction_lines : list string :=
  [ "=== INSTRUCTIONS ===";
    "Based on the above information from the RDF knowledge graph:";
    "1. Provide a comprehensive and accurate answer to the user's query";
    "2. Prioritize information from the LangChain SPARQL analysis if available";
    "3. Use the relevant entities and SPARQL results to provide detailed explanations";
    "4. Explain relationships and concepts clearly with examples where available";
    "5. If information is insufficient, acknowledge this and suggest related topics";
    "6. Focus on the most relevant information based on the query intent" ].

(** The lines of the context, or the exception the schema accessor raised. *)
Definition context_parts (env : environment) (result : Result.t) : outcome (list string) :=
  let before :=
    header_lines result +++ chain_lines result +++ vector_lines env result +++
    direct_lines result in
  if wants_schema result then
    match get_schema_summary env with
    | Ok schema_summary =>
        Ok (before +++ [ "=== ONTOLOGY SCHEMA OVERVIEW ==="; schema_summary; "" ] +++
            instruction_lines)
    | Raise e => Raise e
    end
  else Ok (before +++ instruction_lines).

Definition _generate_comprehensive_context (env : environment) (result : Result.t) : string :=
  match context_parts env result with
  | Ok parts => join newline parts
  | Raise e => "Error generating context: " ++ e
  end.

(** ** Retrieval orchestrator (lines 385-512)

    Every collaborator call sits in a handler of its own and the typed
    records leave no key to miss, so the outermost handler of the source is
    not reached and [process_query] returns the result record. *)

(** Step 1: the semantic search, as (hits, methods appended). *)
Definition vector_step (env : environment) (cleaned_query : string) (top_k : Z)
    (include_vector_search : bool) : list Entity.t * list string :=
  if include_vector_search then
    match vector_store env with
    | Some search_similar =>
        match search_similar cleaned_query top_k with
        | Ok vector_results => (vector_results, [ "vector_search" ])
        | Raise _ => ([], [])
        end
    | None => ([], [])
    end
  else ([], []).

(** Step 2: the chain, as (chain result, methods appended).  A chain that
    returns [None] makes the logging branch raise after the method has been
    recorded. *)
Definition chain_step (env : environment) (cleaned_query : string)
    (use_sparql_chain : bool) : option dict * list string :=
  if use_sparql_chain && sparql_chain env then
    match query_with_langchain env cleaned_query with
    | Ok (Some sparql_result) => (Some sparql_result, [ "sparql_chain" ])
    | Ok None =>
        (Some [ ("error", "'NoneType' object has no attribute 'get'") ], [ "sparql_chain" ])
    | Raise e => (Some [ ("error", e) ], [])
    end
  else (None, []).

(** The loop of step 3 over the synthesized queries. *)
Fixpoint run_direct_queries (env : environment) (sparql_queries : list QuerySpec.t)
    : list DirectResult.t :=
  match sparql_queries with
  | [] => []
  | query_info :: rest =>
      match query_sparql env (QuerySpec.query query_info) with
      | Ok (r :: rs) =>
          {| DirectResult.query_type := QuerySpec.type query_info;
             DirectResult.sparql_query := QuerySpec.query query_info;
             DirectResult.results := r :: rs;
             DirectResult.description := QuerySpec.description query_info |}
          :: run_direct_queries env rest
      | Ok [] => run_direct_queries env rest
      | Raise _ => run_direct_queries env rest
      end
  end.

Definition structured_intents : list string :=
  [ "listing"; "hierarchical"; "count"; "relationship" ].

(** Step 3: the direct queries, as (result sets, methods appended). *)
Definition direct_step (env : environment) (cleaned_query : string)
    (query_classification : Classification.t) (key_concepts : list string)
    : list DirectResult.t * list string :=
  if mem (Classification.primary_intent query_classification) structured_intents then
    let sparql_queries :=
      _generate_targeted_sparql_queries cleaned_query query_classification key_concepts in
    (run_direct_queries env sparql_queries, [ "direct_sparql" ])
  else ([], []).

Definition process_query (env : environment) (user_query : string) (top_k : Z)
    (use_sparql_chain include_vector_search : bool) : Result.t :=
  let cleaned_query := _preprocess_query user_query in
  let query_classification := _classify_query_enhanced cleaned_query in
  let key_concepts := _extract_key_concepts_enhanced (set_order env) cleaned_query in
  let (vector_results, m1) := vector_step env cleaned_query top_k include_vector_search in
  let (chain_result, m2) := chain_step env cleaned_query use_sparql_chain in
  let (direct_results, m3) := direct_step env cleaned_query query_classification key_concepts in
  let enhanced :=
    if is_nil vector_results then None
    else Some (map (_enhance_entity_with_relations env) (firstn 5 vector_results)) in
  let result :=
    {| Result.original_query := user_query;
       Result.cleaned_query := cleaned_query;
       Result.query_classification := query_classification;
       Result.key_concepts := key_concepts;
       Result.vector_search_results := vector_results;
       Result.sparql_chain_result := chain_result;
       Result.direct_sparql_results := direct_results;
       Result.context := EmptyString;
       Result.success := true;
       Result.processing_method := (m1 ++ m2 ++ m3)%list;
       Result.enhanced_entities := enhanced |} in
  {| Result.original_query := Result.original_query result;
     Result.cleaned_query := Result.cleaned_query result;
     Result.query_classification := Result.query_classification result;
     Result.key_concepts := Result.key_concepts result;
     Result.vector_search_results := Result.vector_search_results result;
     Result.sparql_chain_result := Result.sparql_chain_result result;
     Result.direct_sparql_results := Result.direct_sparql_results result;
     Result.context := _generate_comprehensive_context env result;
     Result.success := Result.success result;
     Result.processing_method := Result.processing_method result;
     Result.enhanced_entities := Result.enhanced_entities result |}.

(** ** Query suggestions (lines 906-944) *)

Definition general_suggestions : list string :=
  [ "What classes are in this ontology?";
    "What properties are available?";
    "Show me the ontology structure";
    "How many entities are in the knowledge graph?" ].

Definition get_query_suggestions
    (set_order : list string -> list string) (partial_query : string) : list string :=
  let concepts := _extract_key_concepts_enhanced set_order partial_query in
  let suggestions :=
    match concepts with
    | main_concept :: _ =>
        [ "What is " ++ main_concept ++ "?";
          "Tell me about " ++ main_concept;
          "What properties does " ++ main_concept ++ " have?";
          "What are the subclasses of " ++ main_concept ++ "?";
          "How is " ++ main_concept ++ " related to other concepts?";
          "List all " ++ main_concept ++ " in the ontology";
          "Give me examples of " ++ main_concept ]
    | [] => []
    end in
  firstn 10 (suggestions +++ general_suggestions).

(** ** Fallback response of the chatbot (chatbot.py, lines 559-588)

    The answer of the chatbot when no language model is configured or its
    call fails, built from the result of [process_query].  Reading the key
    [answer] of a chain result that has none raises, and the handler returns
    the error text. *)

Definition fallback_entity_lines (ie : nat * Entity.t) : list string :=
  let (i, entity) := ie in
  (str_of_nat i ++ ". " ++ Entity.local_name entity ++ " (" ++ Entity.type entity ++ ")") ::
  match Entity.comments entity with
  | comment :: _ => [ "   " ++ comment ]
  | [] => []
  end.

Definition _generate_fallback_response (query_result : Result.t) : string :=
  if chain_truthy query_result && negb (get_truthy "error" (chain_dict query_result)) then
    match dict_get "answer" (chain_dict query_result) with
    | Some answer => answer
    | None => "I encountered an error processing your query."
    end
  else if negb (is_nil (Result.vector_search_results query_result)) then
    let entities := firstn 3 (Result.vector_search_results query_result) in
    join newline
      (("I found " ++ str_of_nat (List.length entities) ++
        " relevant entities in the knowledge graph:") ::
       flat_map fallback_entity_lines (enumerate 1 entities))
  else if negb (is_nil (Result.direct_sparql_results query_result)) then
    "I found information using SPARQL queries. Please check the detailed results."
  else "I couldn't find specific information about your query in the knowledge graph.".

(** ** Vocabulary of the statements *)

(** A character the escape leaves in place when it is applied again. *)
Definition settled (c : ascii) : Prop :=
  literal_char c = true /\
  c <> backslash_char /\ c <> dquote_char /\ c <> squote_char /\
  c <> newline_char /\ c <> return_char /\ c <> tab_char.

Definition by_score (x y : string * Q) : bool := Qltb (snd x) (snd y).

Definition score_or_zero (intent : string) (scores : list (string * Q)) : Q :=
  match dict_get intent scores with
  | Some s => s
  | None => 0%Q
  end.

(** A token of the word scan: a non-empty run of ASCII letters. *)
Definition letters_only (w : string) : Prop :=
  w <> EmptyString /\ Forall (fun c => is_ascii_letter c = true) (chars w).

(** The maximal runs of ASCII letters of [s], left to right; [acc] is the
    run being read.  These are the words of a text whatever stands between
    them: blanks, punctuation, digits or quotes. *)
Fixpoint letter_runs (acc : string) (s : string) : list string :=
  match s with
  | EmptyString => if is_empty acc then [] else [acc]
  | String c s' =>
      if is_ascii_letter c then letter_runs (acc ++ str1 c) s'
      else if is_empty acc then letter_runs EmptyString s'
           else acc :: letter_runs EmptyString s'
  end.

(** The query is made of stop-words only: every word of it, taken in lower
    case, is a stop-word. *)
Definition stop_words_only (query : string) : Prop :=
  Forall (fun w => In w stop_words) (letter_runs EmptyString (lower query)).

(** The phrases the query puts between double quotes or single quotes. *)
Definition quoted_phrases (query : string) : list string :=
  (findall_quoted dquote_char None query ++ findall_quoted squote_char None query)%list.

(** The stop-words that are intent keywords as well. *)
Definition keyword_stop_words : list string :=
  [ "what"; "define"; "explain"; "describe"; "list"; "show"; "find"; "have" ].

(** The stop-words on which a keyword or a pattern of the classifier can
    hold: the keywords above, and the opening word of the pattern
    [tell me about (.+)]. *)
Definition classifier_stop_words : list string :=
  (keyword_stop_words ++ [ "tell" ])%list.

(** The language of a regular expression. *)
Inductive lang : regex -> string -> Prop :=
| lang_eps : lang Eps EmptyString
| lang_chr (c : ascii) : lang (Chr c) (str1 c)
| lang_dot (c : ascii) : c <> newline_char -> lang Dot (str1 c)
| lang_any (c : ascii) : lang Any (str1 c)
| lang_seq (r1 r2 : regex) (a b : string) :
    lang r1 a -> lang r2 b -> lang (Seq r1 r2) (a ++ b)
| lang_alt_l (r1 r2 : regex) (a : string) : lang r1 a -> lang (Alt r1 r2) a
| lang_alt_r (r1 r2 : regex) (a : string) : lang r2 a -> lang (Alt r1 r2) a
| lang_star_nil (r : regex) : lang (Star r) EmptyString
| lang_star_cons (r : regex) (a b : string) :
    lang r a -> lang (Star r) b -> lang (Star r) (a ++ b).

(** The one text a regular expression made of literals matches. *)
Fixpoint fixed_text (r : regex) : option string :=
  match r with
  | Eps => Some EmptyString
  | Chr c => Some (str1 c)
  | Seq r1 r2 =>
      match fixed_text r1, fixed_text r2 with
      | Some a, Some b => Some (a ++ b)
      | _, _ => None
      end
  | _ => None
  end.

(** A sufficient test that every text [r] matches holds [word]: a literal
    part of [r] that every match goes through holds it. *)
Fixpoint requires (word : string) (r : regex) : bool :=
  match fixed_text r with
  | Some w => contains word w
  | None =>
      match r with
      | Seq r1 r2 => requires word r1 || requires word r2
      | Alt r1 r2 => requires word r1 && requires word r2
      | _ => false
      end
  end.

(** Words of the classifier's tables that are part of no stop-word: each
    pattern requires one of them or one of [classifier_stop_words], and each
    keyword holds one. *)
Definition table_words : list string :=
  [ "give"; "information"; "definition"; "meaning";
    "related"; "connect"; "relationship"; "interact"; "connection";
    "propert"; "attribute"; "characteristic"; "capabilities";
    "all"; "enumerate";
    "difference"; "compare"; "vs"; "versus"; "different"; "similar";
    "subclass"; "superclass"; "hierarchy"; "children"; "parent"; "child"; "inherit";
    "exist"; "there"; "any"; "we"; "you";
    "many"; "much"; "count"; "number"; "total" ].

(** Every pattern and every keyword of the classifier. *)
Definition all_patterns : list regex := flat_map snd query_patterns.
Definition all_keywords : list string := flat_map snd intent_keywords.

(** The rows of the classifier: an intent with its patterns and keywords. *)
Definition classifier_rows : list (string * (list regex * list string)) :=
  combine (map fst query_patterns)
          (combine (map snd query_patterns) (map snd intent_keywords)).

Definition by_count (x y : string * nat) : bool := snd x <? snd y.

(** The three sources of concepts, in the order they are joined. *)
Definition concept_sources (query : string) : list string :=
  let words := findall_words Outside (lower query) in
  let concepts :=
    filter (fun word => negb (mem word stop_words) && (2 <? len word)) words in
  (concepts ++ multi_word_concepts concepts ++
   findall_quoted dquote_char None query ++ findall_quoted squote_char None query)%list.

(** Equal scores are to keep the order of first occurrence in the query. *)
Definition ties_by_first_occurrence (query : string) (cs : list string) : Prop :=
  StronglySorted
    (fun a b =>
       concept_score query b < concept_score query a \/
       (concept_score query b = concept_score query a /\
        (find (lower a) (lower query) <= find (lower b) (lower query))%Z))
    cs.

(** The terms of [cs] whose score is [s], in the order of [cs]. *)
Definition with_score (query : string) (s : nat) (cs : list string) : list string :=
  filter (fun c => concept_score query c =? s) cs.

(** No two entries are equal up to letter case. *)
Definition no_case_duplicates (cs : list string) : Prop := NoDup (map lower cs).

(** The query text of [spec] holds [literal] as the quoted argument of an
    [LCASE] call. *)
Definition references (literal : string) (spec : QuerySpec.t) : bool :=
  contains ("LCASE(" ++ dquote ++ literal ++ dquote ++ ")") (QuerySpec.query spec).

Definition with_primary_intent (intent : string) : Classification.t :=
  {| Classification.primary_intent := intent;
     Classification.secondary_intent := None;
     Classification.confidence := 0;
     Classification.all_scores := [] |}.

Definition synthesized (order : list string -> list string) (user_query : string)
    : list QuerySpec.t :=
  let cleaned_query := _preprocess_query user_query in
  _generate_targeted_sparql_queries cleaned_query
    (_classify_query_enhanced cleaned_query)
    (_extract_key_concepts_enhanced order cleaned_query).

(** A concept with a double quote in it. *)
Definition quoted_concept : string := "a" ++ dquote ++ "b".

Definition no_collaborators : environment :=
  {| set_order := first_seen;
     vector_store := None;
     sparql_chain := false;
     query_with_langchain := fun _ => Raise "chain not configured";
     query_sparql := fun _ => Raise "query failed";
     find_related_entities := fun _ => Raise "query failed";
     get_schema_summary := Ok "Classes: 2, Properties: 1, Individuals: 0";
     _get_local_name := fun uri => uri;
     format_3f := fun _ => "0.000" |}.

Definition bare_result (chain : option dict) (direct : list DirectResult.t) : Result.t :=
  {| Result.original_query := "list all animals";
     Result.cleaned_query := "list all animals";
     Result.query_classification := _classify_query_enhanced "list all animals";
     Result.key_concepts := ["all"; "animals"];
     Result.vector_search_results := [];
     Result.sparql_chain_result := chain;
     Result.direct_sparql_results := direct;
     Result.context := EmptyString;
     Result.success := true;
     Result.processing_method := [];
     Result.enhanced_entities := None |}.

Definition one_result_set : DirectResult.t :=
  {| DirectResult.query_type := "list_classes";
     DirectResult.sparql_query := "SELECT ?class WHERE { ?class a owl:Class }";
     DirectResult.results := [[("class", "http://example.org/Animal")]];
     DirectResult.description := "Classes related to animals" |}.

(** The result set recorded for a spec whose query returned [rows]. *)
Definition result_set (spec : QuerySpec.t) (rows : list dict) : DirectResult.t :=
  {| DirectResult.query_type := QuerySpec.type spec;
     DirectResult.sparql_query := QuerySpec.query spec;
     DirectResult.results := rows;
     DirectResult.description := QuerySpec.description spec |}.

(** A deployment whose vector index is down while the chain and the graph
    answer. *)
Definition index_down : environment :=
  {| set_order := first_seen;
     vector_store := Some (fun _ _ => Raise "index unavailable");
     sparql_chain := true;
     query_with_langchain := fun _ => Ok (Some [("answer", "Cat, Dog")]);
     query_sparql := fun _ => Ok [[("class", "http://example.org/Animal")]];
     find_related_entities := fun _ => Ok [];
     get_schema_summary := Ok "Classes: 2, Properties: 1, Individuals: 0";
     _get_local_name := fun uri => uri;
     format_3f := fun _ => "0.000" |}.

Definition lower_case_letter (ch : ascii) : Prop := between 97 122 ch = true.

(** How often the character [c] occurs in [s]. *)
Definition occurrences (c : ascii) (s : string) : nat :=
  count_occ ascii_dec (chars s) c.

(** The number of specs the synthesizer yields for an intent and a number
    of concepts. *)
Definition spec_count (intent : string) (n : nat) : nat :=
  if String.eqb intent "listing" then 2 * Nat.min 3 n
  else if String.eqb intent "hierarchical" then 2 * Nat.min 2 n
  else if String.eqb intent "relationship" then (if 2 <=? n then 1 else 0)
  else if String.eqb intent "count" then Nat.min 2 n
  else 0.

(** Every whitespace character of [s] is the plain space. *)
Definition plain_spaces (s : string) : Prop :=
  forall c, In c (chars s) -> is_space c = true -> c = " "%char.

(** The semantic search was asked for, a store is configured, and the call
    returned. *)
Definition vector_search_ran (env : environment) (cleaned_query : string) (top_k : Z)
    (include_vector_search : bool) : bool :=
  include_vector_search &&
  match vector_store env with
  | Some search_similar =>
      match search_similar cleaned_query top_k with
      | Ok _ => true
      | Raise _ => false
      end
  | None => false
  end.

(** The chain was asked for, is available, and the call returned (an answer
    or nothing). *)
Definition chain_ran (env : environment) (cleaned_query : string)
    (use_sparql_chain : bool) : bool :=
  use_sparql_chain && sparql_chain env &&
  match query_with_langchain env cleaned_query with
  | Ok _ => true
  | Raise _ => false
  end.

Definition none_has_no_get : string := "'NoneType' object has no attribute 'get'".


(** The result with other semantic hits and key concepts. *)
Definition with_hits_and_concepts (result : Result.t) (hits : list Entity.t)
    (concepts : list string) : Result.t :=
  {| Result.original_query := Result.original_query result;
     Result.cleaned_query := Result.cleaned_query result;
     Result.query_classification := Result.query_classification result;
     Result.key_concepts := concepts;
     Result.vector_search_results := hits;
     Result.sparql_chain_result := Result.sparql_chain_result result;
     Result.direct_sparql_results := Result.direct_sparql_results result;
     Result.context := Result.context result;
     Result.success := Result.success result;
     Result.processing_method := Result.processing_method result;
     Result.enhanced_entities := Result.enhanced_entities result |}.

Definition answered_result : Result.t :=
  {| Result.original_query := "list all animals";
     Result.cleaned_query := "list all animals";
     Result.query_classification := _classify_query_enhanced "list all animals";
     Result.key_concepts := ["all"; "animals"];
     Result.vector_search_results :=
       [ {| Entity.uri := "http://example.org/Animal";
            Entity.local_name := "Animal";
            Entity.type := "Class";
            Entity.labels := ["Animal"];
            Entity.comments := ["A living being"];
            Entity.similarity_score := Some (9 # 10);
            Entity.related_entities := [];
            Entity.instances := [];
            Entity.sibling_classes := [];
            Entity.usage_examples := [] |} ];
     Result.sparql_chain_result := Some [("answer", "Cat, Dog")];
     Result.direct_sparql_results := [];
     Result.context := EmptyString;
     Result.success := true;
     Result.processing_method := ["vector_search"; "sparql_chain"];
     Result.enhanced_entities := None |}.

Definition schema_down : environment :=
  {| set_order := first_seen;
     vector_store := None;
     sparql_chain := false;
     query_with_langchain := fun _ => Raise "chain not configured";
     query_sparql := fun _ => Raise "query failed";
     find_related_entities := fun _ => Raise "query failed";
     get_schema_summary := Raise "graph not loaded";
     _get_local_name := fun uri => uri;
     format_3f := fun _ => "0.000" |}.

(** The deployment with another lookup of related entities and another
    resolver of local names: the two collaborators of the enricher that no
    other step calls. *)
Definition with_enricher_collaborators (env : environment)
    (related : string -> outcome (list Related.t)) (local_name : string -> string)
    : environment :=
  {| set_order := set_order env;
     vector_store := vector_store env;
     sparql_chain := sparql_chain env;
     query_with_langchain := query_with_langchain env;
     query_sparql := query_sparql env;
     find_related_entities := related;
     get_schema_summary := get_schema_summary env;
     _get_local_name := local_name;
     format_3f := format_3f env |}.

(** * Properties *)

(** ** Characters and strings *)

Lemma ascii_eqb_true (a b : ascii) : Ascii.eqb a b = true -> a = b.
Proof. apply Ascii.eqb_eq. Qed.

Lemma chars_append (s t : string) : chars (s ++ t) = (chars s ++ chars t)%list.
Proof. induction s as [|c s IH]; simpl; [reflexivity | now rewrite IH]. Qed.

Lemma replace_removes (old : ascii) (new s : string) :
  ~ In old (chars new) -> ~ In old (chars (replace old new s)).
Proof.
  intros Hnew. induction s as [|c s IH]; simpl; [tauto|].
  destruct (Ascii.eqb c old) eqn:E.
  - rewrite chars_append, in_app_iff. tauto.
  - simpl. intros [H | H]; [|tauto].
    subst c. now rewrite Ascii.eqb_refl in E.
Qed.

Lemma replace_keeps_absent (c old : ascii) (new s : string) :
  ~ In c (chars new) -> ~ In c (chars s) -> ~ In c (chars (replace old new s)).
Proof.
  intros Hnew. induction s as [|d s IH]; simpl; [tauto|].
  intros Hs. destruct (Ascii.eqb d old).
  - rewrite chars_append, in_app_iff. tauto.
  - simpl. tauto.
Qed.

Lemma replace_absent (old : ascii) (new s : string) :
  ~ In old (chars s) -> replace old new s = s.
Proof.
  induction s as [|c s IH]; simpl; [reflexivity|]. intros H.
  destruct (Ascii.eqb c old) eqn:E.
  - apply ascii_eqb_true in E. tauto.
  - f_equal. apply IH. tauto.
Qed.

Lemma keep_only_chars (cls : ascii -> bool) (s : string) (c : ascii) :
  In c (chars (keep_only cls s)) -> In c (chars s) /\ cls c = true.
Proof.
  induction s as [|d s IH]; simpl; [tauto|].
  destruct (cls d) eqn:E; simpl; intuition (subst; auto).
Qed.

Lemma keep_only_fixes (cls : ascii -> bool) (s : string) :
  Forall (fun c => cls c = true) (chars s) -> keep_only cls s = s.
Proof.
  induction s as [|d s IH]; simpl; [reflexivity|].
  intros H. inversion H; subst. rewrite H2. f_equal. auto.
Qed.

Lemma absent_not_unescaped (target : ascii) (s : string) :
  ~ In backslash_char (chars s) -> ~ In target (chars s) ->
  unescaped_from false target s = false.
Proof.
  induction s as [|c s IH]; simpl; [reflexivity|]. intros Hb Ht.
  destruct (Ascii.eqb c backslash_char) eqn:Eb.
  - apply ascii_eqb_true in Eb. tauto.
  - destruct (Ascii.eqb c target) eqn:Et.
    + apply ascii_eqb_true in Et. tauto.
    + simpl. apply IH; tauto.
Qed.

(** ** Literal escaping *)

Lemma literal_char_not_special (c : ascii) :
  literal_char c = true ->
  c <> backslash_char /\ c <> dquote_char /\ c <> squote_char.
Proof.
  intros H. repeat split; intros ->; vm_compute in H; discriminate.
Qed.

Lemma escape_output_settled (text : string) :
  Forall settled (chars (_escape_sparql_string text)).
Proof.
  apply Forall_forall. intros c Hc. unfold _escape_sparql_string in Hc.
  destruct (is_empty text); [destruct Hc|].
  apply keep_only_chars in Hc. destruct Hc as [Hc Hlit].
  destruct (literal_char_not_special c Hlit) as (Hb & Hd & Hs).
  unfold settled. repeat split; auto; intros ->; revert Hc.
  - apply replace_keeps_absent; [vm_compute; intuition discriminate|].
    apply replace_keeps_absent; [vm_compute; intuition discriminate|].
    apply replace_removes. vm_compute; intuition discriminate.
  - apply replace_keeps_absent; [vm_compute; intuition discriminate|].
    apply replace_removes. vm_compute; intuition discriminate.
  - apply replace_removes. vm_compute; intuition discriminate.
Qed.

Lemma escape_fixes_settled (s : string) :
  Forall settled (chars s) -> _escape_sparql_string s = s.
Proof.
  intros H. unfold _escape_sparql_string.
  destruct s as [|c s]; [reflexivity|]. cbn [is_empty].
  assert (Hnot : forall x, (forall y, settled y -> y <> x) -> ~ In x (chars (String c s))).
  { intros x Hx Hin. rewrite Forall_forall in H. exact (Hx x (H x Hin) eq_refl). }
  rewrite (replace_absent backslash_char) by (apply Hnot; unfold settled; tauto).
  rewrite (replace_absent dquote_char) by (apply Hnot; unfold settled; tauto).
  rewrite (replace_absent squote_char) by (apply Hnot; unfold settled; tauto).
  rewrite (replace_absent newline_char) by (apply Hnot; unfold settled; tauto).
  rewrite (replace_absent return_char) by (apply Hnot; unfold settled; tauto).
  rewrite (replace_absent tab_char) by (apply Hnot; unfold settled; tauto).
  apply keep_only_fixes. eapply Forall_impl; [|exact H].
  unfold settled; tauto.
Qed.

(** C2.  For any input, the escaped text holds only word characters,
    whitespace, hyphen, underscore and period, and no double quote, single
    quote or backslash stands unescaped in it. *)
Theorem escape_output_is_safe : forall text : string,
  Forall (fun c => literal_char c = true) (chars (_escape_sparql_string text)) /\
  unescaped dquote_char (_escape_sparql_string text) = false /\
  unescaped squote_char (_escape_sparql_string text) = false /\
  unescaped backslash_char (_escape_sparql_string text) = false.
Proof.
  intros text. pose proof (escape_output_settled text) as H.
  assert (Hno : forall x, (forall y, settled y -> y <> x) ->
                          ~ In x (chars (_escape_sparql_string text))).
  { intros x Hx Hin. rewrite Forall_forall in H. exact (Hx x (H x Hin) eq_refl). }
  split; [eapply Forall_impl; [|exact H]; unfold settled; tauto|].
  repeat split; apply absent_not_unescaped; apply Hno; unfold settled; tauto.
Qed.

(** C3.  The code departs from the escape its comments describe: the closing
    substitution deletes the backslashes and the quotes that the replacements
    have just written.  A double quote between two letters is lost, a newline
    leaves the letter n, a backslash leaves nothing and a doubled backslash
    leaves nothing either; hence no input is changed by a second application,
    where an escape that kept its backslashes would double them. *)
Theorem escape_deletes_its_escapes :
  _escape_sparql_string ("a" ++ dquote ++ "b") = "ab" /\
  _escape_sparql_string ("a" ++ newline ++ "b") = "anb" /\
  _escape_sparql_string (str1 backslash_char) = EmptyString /\
  _escape_sparql_string (str1 backslash_char ++ str1 backslash_char) = EmptyString /\
  forall x : string,
    _escape_sparql_string (_escape_sparql_string x) = _escape_sparql_string x.
Proof.
  repeat (split; [vm_compute; reflexivity|]).
  intros x. apply escape_fixes_settled, escape_output_settled.
Qed.

(** ** Stable descending sort *)

Section SortedFacts.
Context {A : Type} (lt : A -> A -> bool).

(** [y] does not rank above [x]. *)
Let ge (x y : A) : Prop := lt x y = false.

Hypothesis lt_asym : forall x y, lt x y = true -> lt y x = false.
Hypothesis ge_trans : forall x y z, ge x y -> ge y z -> ge x z.

Lemma insert_desc_perm (x : A) (l : list A) :
  Permutation (insert_desc lt x l) (x :: l).
Proof.
  induction l as [|y l IH]; simpl; [reflexivity|].
  destruct (lt x y); [|reflexivity].
  rewrite IH. apply perm_swap.
Qed.

Lemma sorted_reverse_perm (l : list A) : Permutation (sorted_reverse lt l) l.
Proof.
  induction l as [|x l IH]; simpl; [reflexivity|].
  rewrite insert_desc_perm. now constructor.
Qed.

Lemma insert_desc_sorted (x : A) (l : list A) :
  StronglySorted ge l -> StronglySorted ge (insert_desc lt x l).
Proof.
  induction l as [|y l IH]; simpl; intros Hs.
  - repeat constructor.
  - inversion Hs as [|? ? Hl Hy]; subst. destruct (lt x y) eqn:E.
    + constructor; [auto|].
      apply Forall_forall. intros z Hz.
      apply (Permutation_in _ (insert_desc_perm x l)) in Hz.
      destruct Hz as [<- | Hz]; [now apply lt_asym|].
      rewrite Forall_forall in Hy. auto.
    + constructor; [exact Hs|]. constructor; [exact E|].
      eapply Forall_impl; [|exact Hy]. intros z. now apply ge_trans.
Qed.

Lemma sorted_reverse_sorted (l : list A) : StronglySorted ge (sorted_reverse lt l).
Proof.
  induction l as [|x l IH]; simpl; [constructor | now apply insert_desc_sorted].
Qed.

End SortedFacts.

(** ** Intent classifier *)

Lemma Qltb_false (x y : Q) : Qltb x y = false <-> (y <= x)%Q.
Proof.
  unfold Qltb. rewrite negb_false_iff. apply Qle_bool_iff.
Qed.

Lemma Qltb_true (x y : Q) : Qltb x y = true <-> (x < y)%Q.
Proof.
  unfold Qltb. rewrite negb_true_iff. split.
  - intros H. apply Qnot_le_lt. intros Hle. apply Qle_bool_iff in Hle. congruence.
  - intros H. destruct (Qle_bool y x) eqn:E; [|reflexivity].
    apply Qle_bool_iff in E. exfalso. exact (Qlt_not_le _ _ H E).
Qed.

Lemma by_score_asym (x y : string * Q) : by_score x y = true -> by_score y x = false.
Proof.
  unfold by_score. rewrite Qltb_true, Qltb_false. apply Qlt_le_weak.
Qed.

Lemma by_score_trans (x y z : string * Q) :
  by_score x y = false -> by_score y z = false -> by_score x z = false.
Proof.
  unfold by_score. rewrite !Qltb_false. intros H1 H2. now apply Qle_trans with (snd y).
Qed.

(** The score table always holds the eight intents, in the order of the
    pattern table. *)
Lemma intent_scores_keys (q : string) :
  map fst (intent_scores q) =
  [ "definition"; "relationship"; "property"; "listing"; "comparison";
    "hierarchical"; "existence"; "count" ].
Proof.
  unfold intent_scores.
  generalize (pattern_score q) (keyword_score q). intros ps ks.
  unfold query_patterns, intent_keywords. reflexivity.
Qed.

Lemma dict_get_head {V : Type} (k : string) (v : V) (d : list (string * V)) :
  dict_get k ((k, v) :: d) = Some v.
Proof. simpl. now rewrite String.eqb_refl. Qed.

Lemma classify_scores_sorted (query : string) :
  let c := _classify_query_enhanced query in
  exists first rest,
    Classification.all_scores c = first :: rest /\
    Classification.confidence c = snd first /\
    Classification.primary_intent c =
      (if Qltb 0 (snd first) then fst first else "general") /\
    Forall (fun e => (snd e <= snd first)%Q) (first :: rest).
Proof.
  unfold _classify_query_enhanced.
  set (scores := intent_scores (strip (lower query))).
  pose proof (sorted_reverse_sorted by_score by_score_asym by_score_trans scores) as Hs.
  pose proof (sorted_reverse_perm by_score scores) as Hp.
  fold by_score.
  destruct (sorted_reverse by_score scores) as [|first rest] eqn:E.
  - apply Permutation_nil in Hp.
    pose proof (intent_scores_keys (strip (lower query))) as Hk.
    fold scores in Hk. rewrite Hp in Hk. discriminate.
  - exists first, rest. cbn. repeat split.
    inversion Hs as [|? ? _ Hall]; subst. constructor.
    + apply Qle_refl.
    + eapply Forall_impl; [|exact Hall]. intros e He. now apply Qltb_false.
Qed.

Lemma intent_scores_nonneg (q : string) :
  Forall (fun e => (0 <= snd e)%Q) (intent_scores q).
Proof.
  assert (Hq : forall a b : nat, (0 <= Qof a + Qof b * (1 # 2))%Q).
  { intros a b. unfold Qof, Qle, Qplus, Qmult, inject_Z. cbn [Qnum Qden]. lia. }
  unfold intent_scores.
  generalize (pattern_score q) (keyword_score q). intros ps ks.
  unfold query_patterns, intent_keywords.
  cbv [fold_left dict_set dict_get fst snd String.eqb Ascii.eqb Bool.eqb].
  repeat constructor; cbv [snd]; apply Hq.
Qed.

Lemma dict_get_key {V : Type} (k : string) (v : V) (d : list (string * V)) :
  dict_get k d = Some v -> In k (map fst d).
Proof.
  induction d as [|[k' w] d IH]; cbn [dict_get map fst In]; [discriminate|].
  destruct (String.eqb k k') eqn:Ek.
  - apply String.eqb_eq in Ek. now left.
  - intros H. right. now apply IH.
Qed.

Lemma classify_scores_keys (query : string) :
  Permutation (map fst (Classification.all_scores (_classify_query_enhanced query)))
    [ "definition"; "relationship"; "property"; "listing"; "comparison";
      "hierarchical"; "existence"; "count" ].
Proof.
  unfold _classify_query_enhanced.
  set (scores := intent_scores (strip (lower query))).
  rewrite <- (intent_scores_keys (strip (lower query))). fold scores.
  assert (Hp : Permutation (map fst (sorted_reverse by_score scores)) (map fst scores))
    by (apply Permutation_map, sorted_reverse_perm).
  fold by_score.
  destruct (sorted_reverse by_score scores) as [|f r] eqn:E;
    cbn [Classification.all_scores]; [|exact Hp].
  exact Hp.
Qed.

(** C8.  The primary intent's score in the returned score map is at least
    every intent's score (an intent absent from the map counting 0); a named
    primary intent has a positive entry in the map; and when every intent
    scores 0 the primary intent is general. *)
Theorem primary_intent_is_top_scoring : forall query : string,
  (forall i s, In (i, s) (Classification.all_scores (_classify_query_enhanced query)) ->
     (s <= score_or_zero (Classification.primary_intent (_classify_query_enhanced query))
                         (Classification.all_scores (_classify_query_enhanced query)))%Q) /\
  (Classification.primary_intent (_classify_query_enhanced query) <> "general" ->
     exists s,
       dict_get (Classification.primary_intent (_classify_query_enhanced query))
                (Classification.all_scores (_classify_query_enhanced query)) = Some s /\
       (0 < s)%Q) /\
  ((forall i s, In (i, s) (Classification.all_scores (_classify_query_enhanced query)) ->
      (s == 0)%Q) ->
   Classification.primary_intent (_classify_query_enhanced query) = "general").
Proof.
  intros query.
  destruct (classify_scores_sorted query) as (first & rest & Hall & _ & Hprim & Hmax).
  rewrite Hall, Hprim. destruct first as [name top]. cbn [fst snd] in *.
  destruct (Qltb 0 top) eqn:Epos.
  - apply Qltb_true in Epos. split; [|split].
    + intros i s Hin. unfold score_or_zero. rewrite dict_get_head.
      rewrite Forall_forall in Hmax. exact (Hmax (i, s) Hin).
    + intros _. exists top. rewrite dict_get_head. split; [reflexivity | exact Epos].
    + intros Hzero. exfalso.
      specialize (Hzero name top (or_introl eq_refl)).
      rewrite Hzero in Epos. now apply (Qlt_irrefl 0).
  - apply Qltb_false in Epos. split; [|split].
    + intros i s Hin.
      assert (Hkeys : ~ In "general" (map fst ((name, top) :: rest))).
      { rewrite <- Hall. intros Hin'.
        apply (Permutation_in _ (classify_scores_keys query)) in Hin'.
        cbv [In] in Hin'. intuition discriminate. }
      unfold score_or_zero.
      destruct (dict_get "general" ((name, top) :: rest)) as [v|] eqn:Eg.
      * exfalso. apply Hkeys. exact (dict_get_key _ _ _ Eg).
      * rewrite Forall_forall in Hmax. specialize (Hmax (i, s) Hin). cbn [snd] in Hmax.
        now apply Qle_trans with top.
    + intros Hne. now contradiction Hne.
    + reflexivity.
Qed.

(** ** Concept extractor *)

Lemma set_iteration_nil (order : list string -> list string) :
  set_iteration order -> order [] = [].
Proof.
  intros H. destruct (H []) as [_ Hin].
  destruct (order []) as [|x l]; [reflexivity|].
  exfalso. apply (Hin x). now left.
Qed.

Lemma lower_chars (s : string) : chars (lower s) = map lower_char (chars s).
Proof. induction s as [|c s IH]; simpl; [reflexivity | now rewrite IH]. Qed.

Lemma findall_quoted_absent (q : ascii) (s : string) :
  ~ In q (chars s) -> findall_quoted q None s = [].
Proof.
  induction s as [|c s IH]; simpl; [reflexivity|]. intros H.
  destruct (Ascii.eqb c q) eqn:E.
  - apply ascii_eqb_true in E. tauto.
  - apply IH. tauto.
Qed.

Lemma append_assoc (a b c : string) : ((a ++ b) ++ c = a ++ (b ++ c))%string.
Proof. induction a as [|x a IH]; simpl; [reflexivity | now rewrite IH]. Qed.

Lemma append_empty (a : string) : (a ++ EmptyString)%string = a.
Proof. induction a as [|x a IH]; simpl; [reflexivity | now rewrite IH]. Qed.

Lemma stop_words_are_letters (w : string) : In w stop_words -> letters_only w.
Proof.
  intros H.
  assert (Hall : Forall letters_only stop_words).
  { unfold stop_words.
    repeat (constructor; [split; [discriminate | repeat constructor]|]).
    constructor. }
  rewrite Forall_forall in Hall. auto.
Qed.

Lemma mem_true (x : string) (l : list string) : In x l -> mem x l = true.
Proof.
  intros H. unfold mem. apply existsb_exists. exists x. split; [exact H|].
  apply String.eqb_refl.
Qed.

(** ** Iteration orders of a set *)

Lemma first_seen_is_set_iteration : set_iteration first_seen.
Proof.
  intros l. unfold first_seen. split.
  - apply NoDup_rev, NoDup_nodup.
  - intros x. rewrite <- in_rev, nodup_In, <- in_rev. tauto.
Qed.

Lemma last_first_is_set_iteration : set_iteration last_first.
Proof.
  intros l. unfold last_first. split.
  - apply NoDup_nodup.
  - intros x. rewrite nodup_In, <- in_rev. tauto.
Qed.

Lemma set_iteration_pair (order : list string -> list string) (a b : string) :
  set_iteration order -> a <> b ->
  order [a; b] = [a; b] \/ order [a; b] = [b; a].
Proof.
  intros H Hab. destruct (H [a; b]) as [Hnd Hin].
  apply Permutation_length_2_inv. symmetry.
  apply NoDup_Permutation; [exact Hnd | | exact Hin].
  repeat constructor; simpl; intuition.
Qed.

Lemma set_iteration_single (order : list string -> list string) (a : string) :
  set_iteration order -> order [a] = [a].
Proof.
  intros H. destruct (H [a]) as [Hnd Hin].
  apply Permutation_length_1_inv. symmetry.
  apply NoDup_Permutation; [exact Hnd | | exact Hin].
  repeat constructor; simpl; intuition.
Qed.

(** ** Order and duplicates of the concept list *)

Lemma by_count_asym (x y : string * nat) : by_count x y = true -> by_count y x = false.
Proof. unfold by_count. rewrite Nat.ltb_lt, Nat.ltb_ge. lia. Qed.

Lemma by_count_trans (x y z : string * nat) :
  by_count x y = false -> by_count y z = false -> by_count x z = false.
Proof. unfold by_count. rewrite !Nat.ltb_ge. lia. Qed.

Lemma sorted_pairs_keys (score : string -> nat) (l : list (string * nat)) :
  Forall (fun p => snd p = score (fst p)) l ->
  StronglySorted (fun x y => by_count x y = false) l ->
  StronglySorted (fun a b => score b <= score a) (map fst l).
Proof.
  intros Hf Hs. induction Hs as [|p l Hs IH Hall]; simpl; [constructor|].
  inversion Hf as [|? ? Hp Hl]; subst. constructor; [auto|].
  apply Forall_map. rewrite Forall_forall in *. intros y Hy.
  specialize (Hall y Hy). unfold by_count in Hall. apply Nat.ltb_ge in Hall.
  rewrite <- Hp, <- (Hl y Hy). exact Hall.
Qed.

Lemma extract_permutation (order : list string -> list string) (query : string) :
  Permutation (_extract_key_concepts_enhanced order query) (order (concept_sources query)).
Proof.
  unfold _extract_key_concepts_enhanced. fold by_count.
  rewrite (sorted_reverse_perm by_count). rewrite map_map. cbn [fst].
  rewrite map_id. unfold concept_sources. reflexivity.
Qed.

Lemma insert_desc_filter {A : Type} (lt : A -> A -> bool) (p : A -> bool)
    (x : A) (l : list A) :
  (forall y, p x = true -> p y = true -> lt x y = false) ->
  filter p (insert_desc lt x l) = filter p (x :: l).
Proof.
  intros H. induction l as [|y l IH]; [reflexivity|]. cbn [insert_desc].
  destruct (lt x y) eqn:E; [|reflexivity].
  cbn [filter] in *. rewrite IH.
  destruct (p x) eqn:Px; [|reflexivity].
  destruct (p y) eqn:Py; [|reflexivity].
  rewrite (H y eq_refl Py) in E. discriminate.
Qed.

(** The sort is stable: elements none of which ranks below another keep
    their order. *)
Lemma sorted_reverse_filter {A : Type} (lt : A -> A -> bool) (p : A -> bool)
    (l : list A) :
  (forall x y, p x = true -> p y = true -> lt x y = false) ->
  filter p (sorted_reverse lt l) = filter p l.
Proof.
  intros H. induction l as [|x l IH]; [reflexivity|].
  cbn [sorted_reverse fold_right]. fold (sorted_reverse lt l).
  rewrite insert_desc_filter by (intros y; apply H).
  cbn [filter]. now rewrite IH.
Qed.

Lemma filter_map_fst {A B : Type} (p : A -> bool) (l : list (A * B)) :
  filter p (map fst l) = map fst (filter (fun e => p (fst e)) l).
Proof.
  induction l as [|e l IH]; [reflexivity|]. cbn [map filter].
  destruct (p (fst e)); cbn [map]; now rewrite IH.
Qed.

Lemma extract_ties (order : list string -> list string) (query : string) (s : nat) :
  with_score query s (_extract_key_concepts_enhanced order query) =
  with_score query s (order (concept_sources query)).
Proof.
  unfold with_score, _extract_key_concepts_enhanced. fold by_count.
  cbv zeta. fold (concept_sources query).
  set (scored := map (fun concept => (concept, concept_score query concept))
                     (order (concept_sources query))).
  assert (Hscored : forall l, (forall e, In e l -> In e scored) ->
            filter (fun e => concept_score query (fst e) =? s) l =
            filter (fun e => snd e =? s) l).
  { intros l Hl. apply filter_ext_in. intros e He. apply Hl in He.
    unfold scored in He. apply in_map_iff in He. destruct He as (c & <- & _). reflexivity. }
  rewrite filter_map_fst.
  rewrite Hscored
    by (intros e; apply Permutation_in, sorted_reverse_perm).
  rewrite sorted_reverse_filter.
  - rewrite <- Hscored by auto.
    etransitivity;
      [symmetry; apply (filter_map_fst (fun c => concept_score query c =? s))|].
    unfold scored. rewrite map_map. cbn [fst]. now rewrite map_id.
  - intros x y Hx Hy. apply Nat.eqb_eq in Hx, Hy. unfold by_count.
    apply Nat.ltb_ge. lia.
Qed.

(** C6, as the code has it.  The concept list is in descending order of
    score, holds each term of the three sources, and holds no term twice
    (two terms are the same when they are equal character by character);
    the terms of one score come in the order in which the set is iterated. *)
Theorem concepts_sorted_and_distinct :
  forall (order : list string -> list string) (query : string),
    set_iteration order ->
    StronglySorted (fun a b => concept_score query b <= concept_score query a)
                   (_extract_key_concepts_enhanced order query) /\
    NoDup (_extract_key_concepts_enhanced order query) /\
    (forall c, In c (_extract_key_concepts_enhanced order query) <->
               In c (concept_sources query)) /\
    (forall s, with_score query s (_extract_key_concepts_enhanced order query) =
               with_score query s (order (concept_sources query))).
Proof.
  intros order query Hord.
  pose proof (extract_permutation order query) as Hp.
  destruct (Hord (concept_sources query)) as [Hnd Hin].
  split; [|split; [|split]].
  - unfold _extract_key_concepts_enhanced. fold by_count.
    apply sorted_pairs_keys.
    + apply Forall_forall. intros p Hp'.
      apply (Permutation_in _ (sorted_reverse_perm by_count _)) in Hp'.
      apply in_map_iff in Hp'. destruct Hp' as (c & <- & _). reflexivity.
    + apply sorted_reverse_sorted; [exact by_count_asym | exact by_count_trans].
  - apply (Permutation_NoDup (Permutation_sym Hp)). exact Hnd.
  - intros c. rewrite <- Hin. split; apply Permutation_in; [exact Hp | now symmetry].
  - intros s. apply extract_ties.
Qed.

Lemma concepts_sorted_and_distinct_witness :
  set_iteration first_seen /\
  StronglySorted (fun a b => concept_score "list all animals" b <= concept_score "list all animals" a)
                 (_extract_key_concepts_enhanced first_seen "list all animals") /\
  NoDup (_extract_key_concepts_enhanced first_seen "list all animals") /\
  (forall c, In c (_extract_key_concepts_enhanced first_seen "list all animals") <->
             In c (concept_sources "list all animals")) /\
  (forall s, with_score "list all animals" s
               (_extract_key_concepts_enhanced first_seen "list all animals") =
             with_score "list all animals" s
               (first_seen (concept_sources "list all animals"))).
Proof.
  exact (conj first_seen_is_set_iteration
           (concepts_sorted_and_distinct first_seen "list all animals"
              first_seen_is_set_iteration)).
Defined.

(** C6, as stated, fails on both counts: a quoted phrase keeps its capitals
    and stands beside its lower-case unigram, and equal scores come out in
    the iteration order of the set. *)
Lemma concepts_case_duplicates_and_tie_order :
  ~ (forall order query, set_iteration order ->
       no_case_duplicates (_extract_key_concepts_enhanced order query)) /\
  ~ (forall order query, set_iteration order ->
       ties_by_first_occurrence query (_extract_key_concepts_enhanced order query)).
Proof.
  split.
  - intros H.
    specialize (H first_seen (dquote ++ "Dog" ++ dquote ++ " dog")%string
                  first_seen_is_set_iteration).
    vm_compute in H. inversion H as [|? ? Hn _]. apply Hn. now left.
  - intros H.
    specialize (H last_first "list all animals" last_first_is_set_iteration).
    unfold ties_by_first_occurrence in H.
    replace (_extract_key_concepts_enhanced last_first "list all animals")
      with ["animals"; "all"] in H by (vm_compute; reflexivity).
    inversion H as [|? ? _ Hall]. inversion Hall as [|? ? Hhd _].
    vm_compute in Hhd. destruct Hhd as [Hlt | [_ Hle]].
    + lia.
    + apply Hle. reflexivity.
Qed.

(** ** Structured query synthesizer *)

Lemma list_all_animals_concepts (order : list string -> list string) :
  set_iteration order ->
  _extract_key_concepts_enhanced order (_preprocess_query "list all animals") = ["all"; "animals"] \/
  _extract_key_concepts_enhanced order (_preprocess_query "list all animals") = ["animals"; "all"].
Proof.
  intros Hord.
  assert (E : _extract_key_concepts_enhanced order (_preprocess_query "list all animals") =
              map fst (sorted_reverse by_count
                         (map (fun c => (c, concept_score "list all animals" c))
                              (order ["all"; "animals"]))))
    by reflexivity.
  rewrite E.
  destruct (set_iteration_pair order "all" "animals" Hord) as [-> | ->];
    [discriminate | left | right]; reflexivity.
Qed.

(** C5, as the code has it.  For "list all animals" the primary intent is
    listing, the concepts are "all" and "animals", and the synthesizer yields
    four specs: a list-classes and a list-properties spec for each concept,
    those of "animals" holding the literal "animals", which is its own
    escaped form. *)
Theorem list_all_animals_example :
  forall order : list string -> list string,
    set_iteration order ->
    Classification.primary_intent
      (_classify_query_enhanced (_preprocess_query "list all animals")) = "listing" /\
    Permutation (_extract_key_concepts_enhanced order (_preprocess_query "list all animals"))
                ["all"; "animals"] /\
    List.length (synthesized order "list all animals") = 4 /\
    map QuerySpec.type
        (filter (references (_escape_sparql_string "animals"))
                (synthesized order "list all animals")) =
      ["list_classes"; "list_properties"] /\
    map QuerySpec.type
        (filter (references (_escape_sparql_string "all"))
                (synthesized order "list all animals")) =
      ["list_classes"; "list_properties"] /\
    _escape_sparql_string "animals" = "animals".
Proof.
  intros order Hord. split; [vm_compute; reflexivity|].
  unfold synthesized.
  destruct (list_all_animals_concepts order Hord) as [-> | ->].
  - split; [reflexivity|]. vm_compute. repeat split; reflexivity.
  - split; [apply perm_swap|]. vm_compute. repeat split; reflexivity.
Qed.

Lemma list_all_animals_example_witness :
  set_iteration first_seen /\
  (Classification.primary_intent
     (_classify_query_enhanced (_preprocess_query "list all animals")) = "listing" /\
   Permutation (_extract_key_concepts_enhanced first_seen (_preprocess_query "list all animals"))
               ["all"; "animals"] /\
   List.length (synthesized first_seen "list all animals") = 4 /\
   map QuerySpec.type
       (filter (references (_escape_sparql_string "animals"))
               (synthesized first_seen "list all animals")) =
     ["list_classes"; "list_properties"] /\
   map QuerySpec.type
       (filter (references (_escape_sparql_string "all"))
               (synthesized first_seen "list all animals")) =
     ["list_classes"; "list_properties"] /\
   _escape_sparql_string "animals" = "animals").
Proof.
  exact (conj first_seen_is_set_iteration
           (list_all_animals_example first_seen first_seen_is_set_iteration)).
Defined.

(** C5, as stated, fails: under no iteration order does the synthesizer
    yield exactly two specs for "list all animals". *)
Lemma list_all_animals_never_two_specs :
  ~ (exists order : list string -> list string,
       set_iteration order /\
       List.length (synthesized order "list all animals") = 2).
Proof.
  intros (order & Hord & Hlen). unfold synthesized in Hlen.
  destruct (list_all_animals_concepts order Hord) as [E | E];
    rewrite E in Hlen; vm_compute in Hlen; discriminate.
Qed.

(** C1 at the failing input.  With primary intent listing and the concept
    made of a, a double quote and b, both specs of the synthesizer in force hold the concept as it
    came, quote and all, and not its escaped form [ab]; the first definition
    of the synthesizer, on the same input, holds the escaped form only. *)
Theorem synthesizer_interpolates_raw_concept :
  _escape_sparql_string quoted_concept = "ab" /\
  map QuerySpec.type
      (_generate_targeted_sparql_queries "q" (with_primary_intent "listing") [quoted_concept]) =
    ["list_classes"; "list_properties"] /\
  Forall (fun spec =>
            references quoted_concept spec = true /\
            references (_escape_sparql_string quoted_concept) spec = false)
         (_generate_targeted_sparql_queries "q" (with_primary_intent "listing")
            [quoted_concept]) /\
  Forall (fun spec =>
            references quoted_concept spec = false /\
            references (_escape_sparql_string quoted_concept) spec = true)
         (Shadowed._generate_targeted_sparql_queries "q" (with_primary_intent "listing")
            [quoted_concept]).
Proof.
  split; [reflexivity|]. split; [reflexivity|].
  split; repeat constructor.
Qed.

(** The failing concept comes out of the extractor for a user query that
    puts it between single quotes, and that query is classified listing. *)
Lemma quoted_concept_is_extracted (order : list string -> list string) :
  set_iteration order ->
  let user_query := "list '" ++ quoted_concept ++ "'" in
  Classification.primary_intent
    (_classify_query_enhanced (_preprocess_query user_query)) = "listing" /\
  _extract_key_concepts_enhanced order (_preprocess_query user_query) = [quoted_concept].
Proof.
  intros Hord user_query. split; [vm_compute; reflexivity|].
  assert (E : _extract_key_concepts_enhanced order (_preprocess_query user_query) =
              map fst (sorted_reverse by_count
                         (map (fun c => (c, concept_score user_query c))
                              (order [quoted_concept]))))
    by reflexivity.
  rewrite E, (set_iteration_single order _ Hord). reflexivity.
Qed.

(** ** Substrings *)

Lemma startswith_append (sub t : string) : startswith sub (sub ++ t) = true.
Proof.
  induction sub as [|c sub IH]; [reflexivity|]. cbn [append startswith].
  now rewrite Ascii.eqb_refl, IH.
Qed.

Lemma startswith_split (sub s : string) :
  startswith sub s = true -> exists t, s = sub ++ t.
Proof.
  revert s. induction sub as [|c sub IH]; intros s H.
  - now exists s.
  - destruct s as [|d s]; [discriminate|]. cbn [startswith] in H.
    apply andb_true_iff in H. destruct H as [Hc Hs].
    apply ascii_eqb_true in Hc. subst d.
    destruct (IH s Hs) as [t ->]. now exists t.
Qed.

Lemma contains_split (sub s : string) :
  contains sub s = true -> exists p t, s = p ++ sub ++ t.
Proof.
  induction s as [|c s IH]; cbn [contains]; intros H.
  - rewrite orb_false_r in H. destruct (startswith_split _ _ H) as [t Ht].
    exists EmptyString, t. exact Ht.
  - apply orb_true_iff in H. destruct H as [H | H].
    + destruct (startswith_split _ _ H) as [t Ht]. exists EmptyString, t. exact Ht.
    + destruct (IH H) as (p & t & ->). now exists (String c p), t.
Qed.

Lemma contains_built (sub p t : string) : contains sub (p ++ sub ++ t) = true.
Proof.
  induction p as [|c p IH].
  - cbn [append]. destruct (sub ++ t) eqn:E; cbn [contains];
      rewrite <- E, startswith_append; reflexivity.
  - cbn [append contains]. rewrite IH. apply orb_true_r.
Qed.

Lemma contains_iff (sub s : string) :
  contains sub s = true <-> exists p t, s = p ++ sub ++ t.
Proof.
  split; [apply contains_split|]. intros (p & t & ->). apply contains_built.
Qed.

Lemma append_assoc3 (a b c : string) : ((a ++ b) ++ c)%string = (a ++ b ++ c)%string.
Proof. apply append_assoc. Qed.

Lemma contains_trans (a b s : string) :
  contains a b = true -> contains b s = true -> contains a s = true.
Proof.
  rewrite !contains_iff. intros (p & t & ->) (p' & t' & ->).
  exists (p' ++ p), (t ++ t'). now rewrite !append_assoc.
Qed.

Lemma contains_in_left (sub a b : string) :
  contains sub a = true -> contains sub (a ++ b) = true.
Proof.
  rewrite !contains_iff. intros (p & t & ->). exists p, (t ++ b).
  now rewrite !append_assoc.
Qed.

Lemma contains_in_right (sub a b : string) :
  contains sub b = true -> contains sub (a ++ b) = true.
Proof.
  rewrite !contains_iff. intros (p & t & ->). exists (a ++ p), t.
  now rewrite !append_assoc.
Qed.

Lemma contains_empty_text (sub : string) :
  contains sub EmptyString = true -> sub = EmptyString.
Proof. cbn [contains]. rewrite orb_false_r. now destruct sub. Qed.

(** ** The matcher finds only what the pattern's language holds *)

Lemma nullable_lang (r : regex) : nullable r = true -> lang r EmptyString.
Proof.
  induction r; cbn [nullable]; intros H; try discriminate.
  - constructor.
  - apply andb_true_iff in H. destruct H as [H1 H2].
    change EmptyString with (EmptyString ++ EmptyString)%string. constructor; auto.
  - apply orb_true_iff in H. destruct H as [H | H];
      [apply lang_alt_l | apply lang_alt_r]; auto.
  - constructor.
Qed.

Lemma lang_void (s : string) : ~ lang Void s.
Proof. intros H. inversion H. Qed.

Lemma seq_lang (r1 r2 : regex) (s : string) :
  lang (Regex.seq r1 r2) s -> lang (Seq r1 r2) s.
Proof.
  assert (Hl : forall r, lang r s -> lang (Seq Eps r) s).
  { intros r H. change s with (EmptyString ++ s)%string. constructor; [constructor | exact H]. }
  assert (Hr : forall r, lang r s -> lang (Seq r Eps) s).
  { intros r H. rewrite <- (append_empty s). constructor; [exact H | constructor]. }
  unfold Regex.seq.
  destruct r1, r2;
    first [ intros H; now apply lang_void in H
          | exact (Hl _) | exact (Hr _) | exact (fun H => H) ].
Qed.

Lemma alt_lang (r1 r2 : regex) (s : string) :
  lang (Regex.alt r1 r2) s -> lang (Alt r1 r2) s.
Proof.
  unfold Regex.alt.
  destruct r1, r2;
    first [ exact (fun H => H)
          | intros H; now apply lang_alt_r
          | intros H; now apply lang_alt_l ].
Qed.

Lemma deriv_lang (a : ascii) (r : regex) :
  forall s, lang (deriv a r) s -> lang r (String a s).
Proof.
  induction r as [| | c | | | r1 IH1 r2 IH2 | r1 IH1 r2 IH2 | r IH];
    intros s; cbn [deriv]; intros H.
  - now apply lang_void in H.
  - now apply lang_void in H.
  - destruct (Ascii.eqb a c) eqn:E; [|now apply lang_void in H].
    apply ascii_eqb_true in E. subst c. inversion H; subst. constructor.
  - destruct (Ascii.eqb a newline_char) eqn:E; [now apply lang_void in H|].
    inversion H; subst. apply (lang_dot a). intros ->.
    now rewrite Ascii.eqb_refl in E.
  - inversion H; subst. apply (lang_any a).
  - assert (Hseq : forall s, lang (Regex.seq (deriv a r1) r2) s -> lang (Seq r1 r2) (String a s)).
    { intros s0 H0. apply seq_lang in H0. inversion H0; subst.
      change (String a (a0 ++ b)) with (String a a0 ++ b)%string.
      constructor; auto. }
    destruct (nullable r1) eqn:En; [|now apply Hseq].
    apply alt_lang in H. inversion H; subst; [now apply Hseq|].
    change (String a s) with (EmptyString ++ String a s)%string.
    constructor; [now apply nullable_lang | auto].
  - apply alt_lang in H. inversion H; subst;
      [apply lang_alt_l | apply lang_alt_r]; auto.
  - apply seq_lang in H. inversion H; subst.
    change (String a (a0 ++ b)) with (String a a0 ++ b)%string.
    constructor; auto.
Qed.

Lemma matches_prefix_lang (s : string) :
  forall r, matches_prefix r s = true -> exists p t, s = p ++ t /\ lang r p.
Proof.
  induction s as [|a s IH]; intros r; cbn [matches_prefix]; intros H.
  - rewrite orb_false_r in H. exists EmptyString, EmptyString.
    split; [reflexivity | now apply nullable_lang].
  - apply orb_true_iff in H. destruct H as [H | H].
    + exists EmptyString, (String a s). split; [reflexivity | now apply nullable_lang].
    + destruct (IH _ H) as (p & t & -> & Hp).
      exists (String a p), t. split; [reflexivity | now apply deriv_lang].
Qed.

Lemma search_lang (r : regex) (s : string) :
  search r s = true -> exists p m t, s = p ++ m ++ t /\ lang r m.
Proof.
  unfold search. intros H.
  destruct (matches_prefix_lang s _ H) as (x & t & -> & Hx).
  inversion Hx; subst. exists a, b, t. split; [apply append_assoc | assumption].
Qed.

Lemma fixed_text_lang (r : regex) :
  forall w s, fixed_text r = Some w -> lang r s -> s = w.
Proof.
  induction r as [| | c | | | r1 IH1 r2 IH2 | r1 IH1 r2 IH2 | r IH];
    intros w s; cbn [fixed_text]; try discriminate.
  - intros [= <-] H. now inversion H.
  - intros [= <-] H. now inversion H.
  - destruct (fixed_text r1) as [a|]; [|discriminate].
    destruct (fixed_text r2) as [b|]; [|discriminate].
    intros [= <-] H. inversion H; subst.
    now rewrite (IH1 a a0 eq_refl), (IH2 b b0 eq_refl).
Qed.

Lemma requires_lang (word : string) (r : regex) :
  forall s, requires word r = true -> lang r s -> contains word s = true.
Proof.
  induction r as [| | c | | | r1 IH1 r2 IH2 | r1 IH1 r2 IH2 | r IH];
    intros s; cbn [requires fixed_text]; try discriminate.
  - intros H L. inversion L; subst. exact H.
  - intros H L. inversion L; subst. exact H.
  - intros H L.
    assert (Hsub : requires word r1 || requires word r2 = true -> contains word s = true).
    { intros H'. inversion L; subst. apply orb_true_iff in H'. destruct H' as [H' | H'].
      - apply contains_in_left. now apply IH1.
      - apply contains_in_right. now apply IH2. }
    destruct (fixed_text r1) as [a|] eqn:E1; [|exact (Hsub H)].
    destruct (fixed_text r2) as [b|] eqn:E2; [|exact (Hsub H)].
    inversion L; subst.
    now rewrite (fixed_text_lang r1 a a0 E1), (fixed_text_lang r2 b b0 E2).
  - intros H L. apply andb_true_iff in H. destruct H as [H1 H2].
    inversion L; subst; auto.
Qed.

(** A pattern that requires a word matches only in a text that holds it. *)
Lemma search_requires (word : string) (r : regex) (s : string) :
  requires word r = true -> search r s = true -> contains word s = true.
Proof.
  intros Hr Hs. destruct (search_lang r s Hs) as (p & m & t & -> & Hm).
  apply contains_in_right, contains_in_left. exact (requires_lang word r m Hr Hm).
Qed.

(** ** Words of a text *)

Lemma letter_runs_first (t acc : string) :
  acc <> EmptyString -> exists rest, In (acc ++ rest) (letter_runs acc t).
Proof.
  revert acc. induction t as [|c t IH]; intros acc Hacc; cbn [letter_runs].
  - exists EmptyString. rewrite append_empty.
    destruct acc; [congruence | now left].
  - destruct (is_ascii_letter c).
    + destruct (IH (acc ++ str1 c)) as [rest Hrest].
      { destruct acc; [congruence | discriminate]. }
      exists (String c rest). rewrite append_assoc in Hrest. exact Hrest.
    + exists EmptyString. rewrite append_empty.
      destruct acc; [congruence | now left].
Qed.

Lemma letter_runs_through (word t acc : string) :
  Forall (fun c => is_ascii_letter c = true) (chars word) ->
  letter_runs acc (word ++ t) = letter_runs (acc ++ word) t.
Proof.
  revert acc. induction word as [|c word IH]; intros acc H; cbn [append].
  - now rewrite append_empty.
  - inversion H as [|? ? Hc Hw]; subst. cbn [letter_runs]. rewrite Hc.
    rewrite (IH _ Hw). unfold str1. now rewrite append_assoc.
Qed.

(** A word of letters that occurs in a text lies within one of its words. *)
Lemma contains_in_letter_run (word : string) :
  word <> EmptyString ->
  Forall (fun c => is_ascii_letter c = true) (chars word) ->
  forall p t acc,
    exists run, In run (letter_runs acc (p ++ word ++ t)) /\ contains word run = true.
Proof.
  intros Hne Hw p t. induction p as [|c p IH]; intros acc.
  - cbn [append]. rewrite (letter_runs_through word t acc Hw).
    destruct (letter_runs_first t (acc ++ word)) as [rest Hrest].
    { destruct acc; [exact Hne | discriminate]. }
    exists ((acc ++ word) ++ rest). split; [exact Hrest|].
    rewrite append_assoc. apply contains_built.
  - cbn [append letter_runs]. destruct (is_ascii_letter c); [apply IH|].
    destruct (IH EmptyString) as (run & Hin & Hc).
    exists run. split; [|exact Hc]. destruct (is_empty acc); [exact Hin | now right].
Qed.

Lemma lstrip_suffix (s : string) : exists p, s = p ++ lstrip s.
Proof.
  induction s as [|c s [p IH]]; [now exists EmptyString|]. cbn [lstrip].
  destruct (is_space c); [|now exists EmptyString].
  exists (String c p). cbn [append]. now f_equal.
Qed.

Lemma rstrip_prefix (s : string) : exists t, s = rstrip s ++ t.
Proof.
  induction s as [|c s [t IH]]; [now exists EmptyString|]. cbn [rstrip].
  destruct (rstrip s) as [|d r] eqn:E.
  - destruct (is_space c); [now exists (String c s)|].
    exists s. reflexivity.
  - exists t. cbn [append]. now f_equal.
Qed.

Lemma contains_strip (sub s : string) :
  contains sub (strip s) = true -> contains sub s = true.
Proof.
  unfold strip. intros H.
  destruct (lstrip_suffix s) as [p Hp]. destruct (rstrip_prefix (lstrip s)) as [t Ht].
  rewrite Hp, Ht. apply contains_in_right, contains_in_left. exact H.
Qed.

(** ** Classification of a text that holds none of the words the tables need *)

Lemma tables_covered :
  forallb (fun p => existsb (fun w => requires w p) (classifier_stop_words ++ table_words))
          all_patterns = true /\
  forallb (fun k => existsb (fun w => contains w k) (classifier_stop_words ++ table_words))
          all_keywords = true.
Proof. split; vm_compute; reflexivity. Qed.

Lemma table_words_free :
  forallb (fun w => negb (is_empty w) && forallb is_ascii_letter (chars w) &&
                    forallb (fun sw => negb (contains w sw)) stop_words)
          table_words = true.
Proof. vm_compute. reflexivity. Qed.

Lemma forallb_chars (f : ascii -> bool) (s : string) :
  forallb f (chars s) = true -> Forall (fun c => f c = true) (chars s).
Proof. intros H. apply Forall_forall. now apply forallb_forall. Qed.

(** In a text whose words are stop-words no word of [table_words] occurs. *)
Lemma table_word_absent (text w : string) :
  Forall (fun r => In r stop_words) (letter_runs EmptyString text) ->
  In w table_words -> contains w text = false.
Proof.
  intros Hruns Hw.
  pose proof table_words_free as Hfree. rewrite forallb_forall in Hfree.
  specialize (Hfree w Hw). apply andb_true_iff in Hfree. destruct Hfree as [Hfree Hstop].
  apply andb_true_iff in Hfree. destruct Hfree as [Hne Hlet].
  destruct (contains w text) eqn:E; [|reflexivity]. exfalso.
  apply contains_split in E. destruct E as (p & t & ->).
  destruct (contains_in_letter_run w) with (p := p) (t := t) (acc := EmptyString)
    as (run & Hrun & Hc).
  { destruct w; [discriminate | discriminate]. }
  { now apply forallb_chars. }
  rewrite Forall_forall in Hruns. specialize (Hruns run Hrun).
  rewrite forallb_forall in Hstop. specialize (Hstop run Hruns).
  rewrite Hc in Hstop. discriminate.
Qed.

Lemma filter_none {A : Type} (f : A -> bool) (l : list A) :
  (forall x, In x l -> f x = false) -> filter f l = [].
Proof.
  induction l as [|x l IH]; intros H; [reflexivity|]. cbn [filter].
  rewrite (H x (or_introl eq_refl)). apply IH. intros y Hy. apply H. now right.
Qed.

Lemma quiet_text_scores (text : string) :
  (forall w, In w (classifier_stop_words ++ table_words)%list -> contains w text = false) ->
  (forall pats, In pats (map snd query_patterns) -> pattern_score text pats = 0) /\
  (forall kws, In kws (map snd intent_keywords) -> keyword_score text kws = 0).
Proof.
  intros Hquiet. destruct tables_covered as [Hp Hk].
  rewrite forallb_forall in Hp, Hk. split.
  - intros pats Hin. unfold pattern_score. rewrite filter_none; [reflexivity|].
    intros p Hpin.
    assert (Hall : In p all_patterns).
    { unfold all_patterns. apply in_flat_map. apply in_map_iff in Hin.
      destruct Hin as (row & <- & Hrow). now exists row. }
    specialize (Hp p Hall). apply existsb_exists in Hp. destruct Hp as (w & Hw & Hreq).
    destruct (search p text) eqn:E; [|reflexivity].
    rewrite <- (Hquiet w Hw). symmetry. exact (search_requires w p text Hreq E).
  - intros kws Hin. unfold keyword_score. rewrite filter_none; [reflexivity|].
    intros k Hkin.
    assert (Hall : In k all_keywords).
    { unfold all_keywords. apply in_flat_map. apply in_map_iff in Hin.
      destruct Hin as (row & <- & Hrow). now exists row. }
    specialize (Hk k Hall). apply existsb_exists in Hk. destruct Hk as (w & Hw & Hc).
    destruct (contains k text) eqn:E; [|reflexivity].
    rewrite <- (Hquiet w Hw). symmetry. exact (contains_trans w k text Hc E).
Qed.

Lemma quiet_text_intent_scores (text : string) :
  (forall w, In w (classifier_stop_words ++ table_words)%list -> contains w text = false) ->
  Forall (fun e => (snd e == 0)%Q) (intent_scores text).
Proof.
  intros Hquiet. destruct (quiet_text_scores text Hquiet) as [Hp Hk].
  unfold intent_scores. revert Hp Hk.
  generalize (pattern_score text) (keyword_score text). intros ps ks Hp Hk.
  unfold query_patterns, intent_keywords in *.
  cbv [fold_left dict_set dict_get fst snd String.eqb Ascii.eqb Bool.eqb].
  cbn [map snd] in Hp, Hk.
  repeat constructor; cbv [snd];
    (rewrite Hp by (cbn [In]; tauto)); (rewrite Hk by (cbn [In]; tauto)); reflexivity.
Qed.

(** ** Stop-word queries *)

Lemma findall_words_are_runs (s : string) :
  forall st acc,
    match st with
    | Outside => acc = EmptyString
    | Letters a => acc = a /\ a <> EmptyString
    | Spoiled => True
    end ->
    forall w, In w (findall_words st s) -> In w (letter_runs acc s).
Proof.
  induction s as [|c s IH]; intros st acc Hst w Hw.
  - destruct st as [|a|]; [destruct Hw | | destruct Hw]. destruct Hst as [-> Hne].
    cbn [findall_words] in Hw. cbn [letter_runs]. destruct a; [congruence | exact Hw].
  - cbn [findall_words] in Hw. cbn [letter_runs].
    destruct (is_ascii_letter c) eqn:El.
    + destruct st as [|a|].
      * subst acc. apply (IH (Letters (str1 c))); [|exact Hw]. split; [reflexivity | discriminate].
      * destruct Hst as [-> Hne]. apply (IH (Letters (a ++ str1 c))); [|exact Hw].
        split; [reflexivity|]. destruct a; [congruence | discriminate].
      * apply (IH Spoiled); [exact I | exact Hw].
    + assert (Hlater : forall st', (st' = Outside \/ st' = Spoiled) ->
                In w (findall_words st' s) ->
                In w (if is_empty acc then letter_runs EmptyString s
                      else acc :: letter_runs EmptyString s)).
      { intros st' Hst' Hw'.
        assert (In w (letter_runs EmptyString s)).
        { apply (IH st'); [|exact Hw']. destruct Hst' as [-> | ->]; [reflexivity | exact I]. }
        destruct (is_empty acc); [assumption | now right]. }
      destruct (is_word c).
      * apply (Hlater Spoiled); [now right | exact Hw].
      * destruct st as [|a|].
        -- apply (Hlater Outside); [now left | exact Hw].
        -- destruct Hst as [-> Hne]. destruct Hw as [<- | Hw].
           ++ destruct a; [congruence | now left].
           ++ apply (Hlater Outside); [now left | exact Hw].
        -- apply (Hlater Outside); [now left | exact Hw].
Qed.

Lemma stop_words_only_sources (query : string) :
  stop_words_only query -> concept_sources query = quoted_phrases query.
Proof.
  intros Hstop. unfold concept_sources, quoted_phrases. cbv zeta.
  rewrite filter_none; [reflexivity|].
  intros w Hw. apply (findall_words_are_runs _ Outside EmptyString eq_refl) in Hw.
  unfold stop_words_only in Hstop. rewrite Forall_forall in Hstop.
  now rewrite (mem_true w stop_words (Hstop w Hw)).
Qed.

Lemma stop_words_only_concepts (order : list string -> list string) (query c : string) :
  set_iteration order -> stop_words_only query ->
  In c (_extract_key_concepts_enhanced order query) <-> In c (quoted_phrases query).
Proof.
  intros Hord Hstop. rewrite <- (stop_words_only_sources query Hstop).
  rewrite <- (proj2 (Hord (concept_sources query)) c).
  split; apply Permutation_in;
    [apply extract_permutation | apply Permutation_sym, extract_permutation].
Qed.

Lemma classify_all_zero (query : string) :
  Forall (fun e => (snd e == 0)%Q) (intent_scores (strip (lower query))) ->
  Classification.primary_intent (_classify_query_enhanced query) = "general" /\
  (Classification.confidence (_classify_query_enhanced query) == 0)%Q.
Proof.
  intros Hzero. unfold _classify_query_enhanced.
  pose proof (sorted_reverse_perm (fun x y => Qltb (snd x) (snd y))
                (intent_scores (strip (lower query)))) as Hp.
  destruct (sorted_reverse _ (intent_scores (strip (lower query)))) as [|first rest];
    cbn [Classification.primary_intent Classification.confidence];
    [split; reflexivity|].
  rewrite Forall_forall in Hzero.
  assert (Hfirst : (snd first == 0)%Q)
    by (apply Hzero, (Permutation_in _ Hp); now left).
  split; [|exact Hfirst].
  destruct (Qltb 0 (snd first)) eqn:E; [|reflexivity].
  apply Qltb_true in E. rewrite Hfirst in E. exfalso. now apply (Qlt_irrefl 0).
Qed.

Lemma stop_words_only_quiet (query : string) :
  stop_words_only query ->
  (forall w, In w classifier_stop_words -> contains w (lower query) = false) ->
  forall w, In w (classifier_stop_words ++ table_words)%list ->
            contains w (strip (lower query)) = false.
Proof.
  intros Hstop Hnone w Hw.
  assert (H : contains w (lower query) = false).
  { apply in_app_or in Hw. destruct Hw as [Hw | Hw]; [now apply Hnone|].
    now apply table_word_absent. }
  destruct (contains w (strip (lower query))) eqn:E; [|reflexivity].
  apply contains_strip in E. congruence.
Qed.

Lemma letter_not_space (c : ascii) : is_ascii_letter c = true -> is_space c = false.
Proof. destruct c as [[] [] [] [] [] [] [] []]; (reflexivity || discriminate). Qed.

Lemma startswith_contains (sub s : string) :
  startswith sub s = true -> contains sub s = true.
Proof. intros H. destruct s; cbn [contains]; now rewrite H. Qed.

Lemma contains_lstrip (w s : string) :
  w <> EmptyString -> Forall (fun c => is_ascii_letter c = true) (chars w) ->
  contains w s = true -> contains w (lstrip s) = true.
Proof.
  intros Hne Hw. destruct w as [|a w]; [congruence|].
  inversion Hw as [|? ? Ha _]; subst. apply letter_not_space in Ha.
  induction s as [|c s IH]; [trivial|]. cbn [lstrip].
  destruct (is_space c) eqn:E; [|trivial].
  cbn [contains startswith].
  destruct (Ascii.eqb a c) eqn:Eac.
  - apply ascii_eqb_true in Eac. congruence.
  - cbn [andb orb]. exact IH.
Qed.

Lemma startswith_rstrip (w : string) :
  w <> EmptyString -> Forall (fun c => is_ascii_letter c = true) (chars w) ->
  forall s, startswith w s = true -> startswith w (rstrip s) = true.
Proof.
  induction w as [|a w IH]; [congruence|]. intros _ Hw s H.
  inversion Hw as [|? ? Ha Hw']; subst.
  destruct s as [|c s]; [discriminate|]. cbn [startswith] in H.
  apply andb_true_iff in H. destruct H as [Hac Hs].
  apply ascii_eqb_true in Hac. subst c. cbn [rstrip].
  destruct w as [|b w].
  - destruct (rstrip s).
    + rewrite (letter_not_space a Ha). cbn [startswith]. now rewrite Ascii.eqb_refl.
    + cbn [startswith]. now rewrite Ascii.eqb_refl.
  - assert (H' : startswith (String b w) (rstrip s) = true)
      by (apply IH; [discriminate | exact Hw' | exact Hs]).
    destruct (rstrip s) as [|d r]; [discriminate|].
    cbn [startswith] in *. now rewrite Ascii.eqb_refl, H'.
Qed.

Lemma contains_rstrip (w s : string) :
  w <> EmptyString -> Forall (fun c => is_ascii_letter c = true) (chars w) ->
  contains w s = true -> contains w (rstrip s) = true.
Proof.
  intros Hne Hw. induction s as [|c s IH]; intros H.
  - apply contains_empty_text in H. congruence.
  - cbn [contains] in H. apply orb_true_iff in H. destruct H as [H | H].
    + apply startswith_contains. now apply startswith_rstrip.
    + specialize (IH H). cbn [rstrip].
      destruct (rstrip s) as [|d r].
      * apply contains_empty_text in IH. congruence.
      * cbn [contains] in *. rewrite IH. apply orb_true_r.
Qed.

Lemma contains_into_strip (w s : string) :
  w <> EmptyString -> Forall (fun c => is_ascii_letter c = true) (chars w) ->
  contains w s = true -> contains w (strip s) = true.
Proof.
  intros Hne Hw H. unfold strip. apply contains_rstrip; [assumption..|].
  now apply contains_lstrip.
Qed.

Lemma intent_scores_by_row (text : string) :
  intent_scores text =
  map (fun row =>
         (fst row,
          (Qof (pattern_score text (fst (snd row))) +
           Qof (keyword_score text (snd (snd row))) * (1 # 2))%Q))
      classifier_rows.
Proof.
  unfold intent_scores, classifier_rows.
  generalize (pattern_score text) (keyword_score text). intros ps ks.
  reflexivity.
Qed.

Lemma keyword_score_positive (text k : string) (kws : list string) :
  In k kws -> contains k text = true -> 1 <= keyword_score text kws.
Proof.
  intros Hin Hc. unfold keyword_score.
  assert (H : In k (filter (fun k0 => contains k0 text) kws))
    by (apply filter_In; tauto).
  destruct (filter _ kws); [destruct H | cbn [List.length]; lia].
Qed.

Lemma keyword_stop_word_row (w : string) :
  In w keyword_stop_words ->
  exists row, In row classifier_rows /\ In w (snd (snd row)).
Proof.
  intros Hw. unfold keyword_stop_words in Hw. cbn [In] in Hw.
  assert (Hd : exists row, In row classifier_rows /\ fst row = "definition"
                           /\ snd (snd row) = ["what"; "define"; "explain"; "describe";
                                               "meaning"; "definition"]).
  { eexists. split; [left; reflexivity|]. split; reflexivity. }
  assert (Hl : exists row, In row classifier_rows /\ fst row = "listing"
                           /\ snd (snd row) = ["list"; "show"; "all"; "find"; "enumerate";
                                               "give me"]).
  { eexists. split; [do 3 right; left; reflexivity|]. split; reflexivity. }
  assert (He : exists row, In row classifier_rows /\ fst row = "existence"
                           /\ snd (snd row) = ["exist"; "there"; "any"; "have"; "find"]).
  { eexists. split; [do 6 right; left; reflexivity|]. split; reflexivity. }
  destruct Hd as (rd & Hd1 & _ & Hd2). destruct Hl as (rl & Hl1 & _ & Hl2).
  destruct He as (re & He1 & _ & He2).
  repeat (destruct Hw as [<- | Hw];
          [first [ exists rd; split; [exact Hd1 | rewrite Hd2; cbn [In]; tauto]
                 | exists rl; split; [exact Hl1 | rewrite Hl2; cbn [In]; tauto]
                 | exists re; split; [exact He1 | rewrite He2; cbn [In]; tauto] ]|]).
  destruct Hw.
Qed.

Lemma keyword_stop_words_letters (w : string) :
  In w keyword_stop_words ->
  w <> EmptyString /\ Forall (fun c => is_ascii_letter c = true) (chars w).
Proof.
  intros Hw. apply stop_words_are_letters.
  unfold keyword_stop_words in Hw. cbn [In] in Hw. unfold stop_words. cbn [In].
  repeat (destruct Hw as [<- | Hw]; [tauto|]). destruct Hw.
Qed.

(** A query that holds an intent keyword is not classified general. *)
Lemma keyword_gives_intent (query w : string) :
  In w keyword_stop_words -> contains w (lower query) = true ->
  Classification.primary_intent (_classify_query_enhanced query) <> "general" /\
  (1 # 2 <= Classification.confidence (_classify_query_enhanced query))%Q.
Proof.
  intros Hw Hc.
  destruct (keyword_stop_words_letters w Hw) as [Hne Hlet].
  apply (contains_into_strip w _ Hne Hlet) in Hc.
  destruct (keyword_stop_word_row w Hw) as (row & Hrow & Hin).
  pose proof (keyword_score_positive _ w _ Hin Hc) as Hk.
  set (text := strip (lower query)) in *.
  set (v := (Qof (pattern_score text (fst (snd row))) +
             Qof (keyword_score text (snd (snd row))) * (1 # 2))%Q).
  assert (Hv : (1 # 2 <= v)%Q).
  { unfold v, Qof, Qle, Qplus, Qmult, inject_Z. cbn [Qnum Qden]. lia. }
  assert (Hentry : In (fst row, v) (intent_scores text)).
  { rewrite intent_scores_by_row. apply in_map_iff. exists row. split; [reflexivity | exact Hrow]. }
  destruct (classify_scores_sorted query) as (first & rest & Hall & Hconf & Hprim & Hmax).
  assert (Hin' : In (fst row, v) (first :: rest)).
  { rewrite <- Hall. unfold _classify_query_enhanced. fold text.
    pose proof (sorted_reverse_perm (fun x y => Qltb (snd x) (snd y)) (intent_scores text)) as Hp.
    destruct (sorted_reverse _ (intent_scores text)) as [|f r] eqn:E;
      cbn [Classification.all_scores];
      apply (Permutation_in _ (Permutation_sym Hp)); exact Hentry. }
  rewrite Forall_forall in Hmax. specialize (Hmax _ Hin'). cbn [snd] in Hmax.
  assert (Htop : (1 # 2 <= snd first)%Q) by (now apply Qle_trans with v).
  rewrite Hprim, Hconf. split; [|exact Htop].
  assert (Epos : Qltb 0 (snd first) = true).
  { apply Qltb_true. apply Qlt_le_trans with (1 # 2)%Q; [reflexivity | exact Htop]. }
  rewrite Epos. intros Hgen.
  pose proof (classify_scores_keys query) as Hk'. rewrite Hall in Hk'.
  assert (Hf : In (fst first) (map fst (first :: rest))) by (now left).
  apply (Permutation_in _ Hk') in Hf. rewrite Hgen in Hf.
  cbn [In] in Hf. intuition discriminate.
Qed.

Lemma stop_words_only_check (query : string) :
  forallb (fun w => mem w stop_words) (letter_runs EmptyString (lower query)) = true ->
  stop_words_only query.
Proof.
  intros H. unfold stop_words_only. apply Forall_forall. intros w Hw.
  rewrite forallb_forall in H. specialize (H w Hw).
  unfold mem in H. apply existsb_exists in H. destruct H as (y & Hy & E).
  apply String.eqb_eq in E. now subst.
Qed.

Lemma classifier_stop_words_absent (text : string) :
  forallb (fun w => negb (contains w text)) classifier_stop_words = true ->
  forall w, In w classifier_stop_words -> contains w text = false.
Proof.
  intros H w Hw. rewrite forallb_forall in H. specialize (H w Hw).
  now apply negb_true_iff in H.
Qed.

(** C7, as the code has it.  For a query whose words are all stop-words the
    concept list holds the phrases the query puts between quotes, each once,
    and nothing else; it is empty when the query quotes nothing.  The classifier answers general with
    confidence 0 when none of what, define, explain, describe, list, show,
    find, have and tell occurs in the query; when one of the first eight
    occurs, which are intent keywords, it answers another intent with
    confidence 0.5 or more. *)
Theorem stop_words_only_query :
  forall (order : list string -> list string) (query : string),
    set_iteration order -> stop_words_only query ->
    (forall c, In c (_extract_key_concepts_enhanced order query) <->
               In c (quoted_phrases query)) /\
    NoDup (_extract_key_concepts_enhanced order query) /\
    (quoted_phrases query = [] -> _extract_key_concepts_enhanced order query = []) /\
    ((forall w, In w classifier_stop_words -> contains w (lower query) = false) ->
     Classification.primary_intent (_classify_query_enhanced query) = "general" /\
     (Classification.confidence (_classify_query_enhanced query) == 0)%Q) /\
    ((exists w, In w keyword_stop_words /\ contains w (lower query) = true) ->
     Classification.primary_intent (_classify_query_enhanced query) <> "general" /\
     (1 # 2 <= Classification.confidence (_classify_query_enhanced query))%Q).
Proof.
  intros order query Hord Hstop.
  split; [intros c; now apply stop_words_only_concepts|].
  split; [|split; [|split]].
  - apply (Permutation_NoDup (Permutation_sym (extract_permutation order query))).
    exact (proj1 (Hord (concept_sources query))).
  - intros Hnone.
    destruct (_extract_key_concepts_enhanced order query) as [|c cs] eqn:E; [reflexivity|].
    exfalso.
    assert (Hc : In c (quoted_phrases query)).
    { apply (stop_words_only_concepts order query c Hord Hstop). rewrite E. apply in_eq. }
    rewrite Hnone in Hc. destruct Hc.
  - intros Hnone. apply classify_all_zero, quiet_text_intent_scores.
    now apply stop_words_only_quiet.
  - intros (w & Hw & Hc). exact (keyword_gives_intent query w Hw Hc).
Qed.

Lemma stop_words_only_query_witness :
  (set_iteration first_seen /\ stop_words_only "Is THIS, or that, for me?") /\
  _extract_key_concepts_enhanced first_seen "Is THIS, or that, for me?" = [] /\
  Classification.primary_intent (_classify_query_enhanced "Is THIS, or that, for me?") = "general" /\
  (Classification.confidence (_classify_query_enhanced "Is THIS, or that, for me?") == 0)%Q.
Proof.
  assert (Hstop : stop_words_only "Is THIS, or that, for me?")
    by (apply stop_words_only_check; vm_compute; reflexivity).
  destruct (stop_words_only_query first_seen "Is THIS, or that, for me?"
              first_seen_is_set_iteration Hstop) as (_ & _ & Hnil & Hgen & _).
  split; [exact (conj first_seen_is_set_iteration Hstop)|].
  split; [apply Hnil; vm_compute; reflexivity|].
  apply Hgen. apply classifier_stop_words_absent. vm_compute. reflexivity.
Defined.

(** C7, as stated, fails in both halves.  The words of the query [what is]
    are stop-words, and the classifier answers definition with confidence
    0.5, [what] being a keyword of that intent.  The words of the query
    [what is 'the' for] are stop-words, and the concept list holds the quoted
    phrase [the]. *)
Lemma what_is_classified_definition :
  (stop_words_only "what is" /\
   Classification.primary_intent (_classify_query_enhanced "what is") = "definition" /\
   (Classification.confidence (_classify_query_enhanced "what is") == 1 # 2)%Q) /\
  (stop_words_only "what is 'the' for" /\
   _extract_key_concepts_enhanced first_seen "what is 'the' for" = ["the"]).
Proof.
  split; split; try (apply stop_words_only_check; vm_compute; reflexivity);
    vm_compute; try split; reflexivity.
Qed.

(** ** Context assembler *)

Lemma join_nonempty (sep x : string) (l : list string) :
  x <> EmptyString -> join sep (x :: l) <> EmptyString.
Proof.
  intros Hx. unfold join. cbn [String.concat].
  destruct x as [|c x]; [congruence|]. destruct l; discriminate.
Qed.

Lemma context_never_empty (env : environment) (result : Result.t) :
  _generate_comprehensive_context env result <> EmptyString.
Proof.
  unfold _generate_comprehensive_context, context_parts.
  destruct (wants_schema result); [destruct (get_schema_summary env)|];
    try discriminate; unfold header_lines; cbn [app]; apply join_nonempty; discriminate.
Qed.

(** C9, as the code has it.  When there are no semantic hits and the chain
    result is absent or an empty dict, and the schema accessor returns, the
    context is the header, the structured-results section if there are
    result sets, the schema overview and the instructions: no chain section
    and no semantic section.  The context is never the empty text. *)
Theorem schema_fallback_context :
  forall (env : environment) (result : Result.t) (schema_summary : string),
    Result.vector_search_results result = [] ->
    Result.sparql_chain_result result = None \/ Result.sparql_chain_result result = Some [] ->
    get_schema_summary env = Ok schema_summary ->
    _generate_comprehensive_context env result =
      join newline
        (header_lines result +++ direct_lines result +++
         [ "=== ONTOLOGY SCHEMA OVERVIEW ==="; schema_summary; "" ] +++
         instruction_lines) /\
    chain_lines result = [] /\
    vector_lines env result = [] /\
    _generate_comprehensive_context env result <> EmptyString.
Proof.
  intros env result schema_summary Hvec Hchain Hschema.
  assert (Htruthy : chain_truthy result = false).
  { unfold chain_truthy. destruct Hchain as [-> | ->]; reflexivity. }
  assert (Hc : chain_lines result = []).
  { unfold chain_lines. now rewrite Htruthy. }
  assert (Hv : vector_lines env result = []).
  { unfold vector_lines. now rewrite Hvec. }
  repeat split; [|exact Hc | exact Hv | apply context_never_empty].
  unfold _generate_comprehensive_context, context_parts, wants_schema.
  rewrite Hc, Hv, Htruthy, Hvec, Hschema. cbn [is_nil andb negb app].
  now rewrite <- app_assoc.
Qed.

Lemma schema_fallback_context_witness :
  Result.vector_search_results (bare_result None [one_result_set]) = [] /\
  get_schema_summary no_collaborators = Ok "Classes: 2, Properties: 1, Individuals: 0" /\
  (_generate_comprehensive_context no_collaborators (bare_result None [one_result_set]) =
     join newline
       (header_lines (bare_result None [one_result_set]) +++
        direct_lines (bare_result None [one_result_set]) +++
        [ "=== ONTOLOGY SCHEMA OVERVIEW ===";
          "Classes: 2, Properties: 1, Individuals: 0"; "" ] +++
        instruction_lines) /\
   chain_lines (bare_result None [one_result_set]) = [] /\
   vector_lines no_collaborators (bare_result None [one_result_set]) = [] /\
   _generate_comprehensive_context no_collaborators (bare_result None [one_result_set])
     <> EmptyString).
Proof.
  exact (conj eq_refl
           (conj eq_refl
              (schema_fallback_context no_collaborators (bare_result None [one_result_set])
                 "Classes: 2, Properties: 1, Individuals: 0"
                 eq_refl (or_introl eq_refl) eq_refl))).
Defined.

(** C9, as stated, fails twice.  With result sets and neither hits nor a
    chain result, the schema overview stands beside the structured-results
    section, not in its place; and with an error-tagged chain result and no
    hits there is no chain answer and yet no schema overview. *)
Lemma schema_fallback_not_a_substitute :
  (exists parts,
     context_parts no_collaborators (bare_result None [one_result_set]) = Ok parts /\
     In "=== ADDITIONAL SPARQL QUERY RESULTS ===" parts /\
     In "=== ONTOLOGY SCHEMA OVERVIEW ===" parts) /\
  (exists parts,
     context_parts no_collaborators (bare_result (Some [("error", "timeout")]) []) = Ok parts /\
     chain_lines (bare_result (Some [("error", "timeout")]) []) = [] /\
     ~ In "=== ONTOLOGY SCHEMA OVERVIEW ===" parts).
Proof.
  split.
  - eexists. split; [vm_compute; reflexivity|]. split; simpl; tauto.
  - eexists. split; [vm_compute; reflexivity|]. split; [reflexivity|].
    simpl. intuition discriminate.
Qed.

(** ** Retrieval orchestrator *)

Lemma process_query_fields (env : environment) (user_query : string) (top_k : Z)
    (use_sparql_chain include_vector_search : bool) :
  let cleaned_query := _preprocess_query user_query in
  let r := process_query env user_query top_k use_sparql_chain include_vector_search in
  let v := vector_step env cleaned_query top_k include_vector_search in
  let c := chain_step env cleaned_query use_sparql_chain in
  let d := direct_step env cleaned_query (_classify_query_enhanced cleaned_query)
             (_extract_key_concepts_enhanced (set_order env) cleaned_query) in
  Result.vector_search_results r = fst v /\
  Result.sparql_chain_result r = fst c /\
  Result.direct_sparql_results r = fst d /\
  Result.processing_method r = (snd v ++ snd c ++ snd d)%list /\
  Result.success r = true.
Proof.
  cbv zeta. unfold process_query.
  destruct (vector_step _ _ _ _) as [vr m1].
  destruct (chain_step _ _ _) as [cr m2].
  destruct (direct_step _ _ _ _) as [dr m3].
  repeat split.
Qed.

Lemma mem_In (x : string) (l : list string) : mem x l = true <-> In x l.
Proof.
  unfold mem. rewrite existsb_exists. split.
  - intros (y & Hy & E). apply String.eqb_eq in E. now subst.
  - intros H. exists x. split; [exact H | apply String.eqb_refl].
Qed.

Lemma chain_step_methods (env : environment) (q : string) (b : bool) :
  snd (chain_step env q b) = [] \/ snd (chain_step env q b) = ["sparql_chain"].
Proof.
  unfold chain_step. destruct (b && sparql_chain env); [|now left].
  destruct (query_with_langchain env q) as [[d|]|e]; cbn [snd]; tauto.
Qed.

Lemma direct_step_methods (env : environment) (q : string) (c : Classification.t)
    (cs : list string) :
  snd (direct_step env q c cs) =
    if mem (Classification.primary_intent c) structured_intents
    then ["direct_sparql"] else [].
Proof.
  unfold direct_step. now destruct (mem _ structured_intents).
Qed.

Lemma synthesized_unfold (order : list string -> list string) (user_query : string) :
  synthesized order user_query =
  _generate_targeted_sparql_queries (_preprocess_query user_query)
    (_classify_query_enhanced (_preprocess_query user_query))
    (_extract_key_concepts_enhanced order (_preprocess_query user_query)).
Proof. reflexivity. Qed.

Lemma run_direct_queries_keeps (env : environment) (specs : list QuerySpec.t)
    (spec : QuerySpec.t) (row : dict) (rows : list dict) :
  In spec specs -> query_sparql env (QuerySpec.query spec) = Ok (row :: rows) ->
  In (result_set spec (row :: rows)) (run_direct_queries env specs).
Proof.
  intros Hin Hq. induction specs as [|s specs IH]; [destruct Hin|].
  cbn [run_direct_queries]. destruct Hin as [-> | Hin].
  - rewrite Hq. now left.
  - destruct (query_sparql env (QuerySpec.query s)) as [[|r rs]|e]; auto.
    right. now apply IH.
Qed.

Lemma run_direct_queries_all_fail (env : environment) (specs : list QuerySpec.t) :
  (forall q, query_sparql env q = Ok [] \/ exists e, query_sparql env q = Raise e) ->
  run_direct_queries env specs = [].
Proof.
  intros H. induction specs as [|s specs IH]; [reflexivity|].
  cbn [run_direct_queries].
  destruct (H (QuerySpec.query s)) as [-> | [e ->]]; exact IH.
Qed.

Lemma chain_step_answer (env : environment) (q : string) (answer : dict) :
  sparql_chain env = true -> query_with_langchain env q = Ok (Some answer) ->
  chain_step env q true = (Some answer, ["sparql_chain"]).
Proof. intros Ha Hq. unfold chain_step. now rewrite Ha, Hq. Qed.

Lemma direct_step_structured (env : environment) (q : string) (c : Classification.t)
    (cs : list string) :
  In (Classification.primary_intent c) structured_intents ->
  direct_step env q c cs =
    (run_direct_queries env (_generate_targeted_sparql_queries q c cs), ["direct_sparql"]).
Proof. intros H. apply mem_In in H. unfold direct_step. now rewrite H. Qed.

(** C4.  When the semantic search raises, the call still succeeds: the
    vector results are empty and the method list has no vector_search; a
    chain answer that came back is returned and recorded as sparql_chain;
    for a structured intent direct_sparql is recorded and every synthesized
    query that returned rows has its result set in the result. *)
Theorem vector_failure_is_isolated :
  forall (env : environment) (user_query : string) (top_k : Z) (use_sparql_chain : bool)
         (search_similar : string -> Z -> outcome (list Entity.t)) (e : string),
    vector_store env = Some search_similar ->
    search_similar (_preprocess_query user_query) top_k = Raise e ->
    Result.success (process_query env user_query top_k use_sparql_chain true) = true /\
    Result.vector_search_results (process_query env user_query top_k use_sparql_chain true) = [] /\
    ~ In "vector_search"
         (Result.processing_method (process_query env user_query top_k use_sparql_chain true)) /\
    (forall answer,
        use_sparql_chain = true -> sparql_chain env = true ->
        query_with_langchain env (_preprocess_query user_query) = Ok (Some answer) ->
        Result.sparql_chain_result (process_query env user_query top_k use_sparql_chain true)
          = Some answer /\
        In "sparql_chain"
           (Result.processing_method (process_query env user_query top_k use_sparql_chain true))) /\
    (In (Classification.primary_intent (_classify_query_enhanced (_preprocess_query user_query)))
        structured_intents ->
     In "direct_sparql"
        (Result.processing_method (process_query env user_query top_k use_sparql_chain true)) /\
     forall spec row rows,
       In spec (synthesized (set_order env) user_query) ->
       query_sparql env (QuerySpec.query spec) = Ok (row :: rows) ->
       In (result_set spec (row :: rows))
          (Result.direct_sparql_results
             (process_query env user_query top_k use_sparql_chain true))).
Proof.
  intros env user_query top_k use_sparql_chain search_similar e Hstore Hfail.
  destruct (process_query_fields env user_query top_k use_sparql_chain true)
    as (Hv & Hc & Hd & Hm & Hs).
  assert (Hvs : vector_step env (_preprocess_query user_query) top_k true = ([], [])).
  { unfold vector_step. now rewrite Hstore, Hfail. }
  rewrite Hs, Hv, Hm, Hc, Hd, Hvs. clear Hs Hv Hm Hc Hd Hvs.
  split; [reflexivity|]. split; [reflexivity|]. split; [|split].
  - rewrite !in_app_iff, direct_step_methods.
    destruct (chain_step_methods env (_preprocess_query user_query) use_sparql_chain)
      as [-> | ->];
      destruct (mem _ structured_intents); simpl; intuition discriminate.
  - intros answer -> Havail Hans.
    rewrite (chain_step_answer env _ answer Havail Hans), !in_app_iff.
    split; [reflexivity | right; left; apply in_eq].
  - intros Hintent. rewrite (direct_step_structured env _ _ _ Hintent), !in_app_iff.
    split; [right; right; apply in_eq|].
    intros spec row rows Hin Hrows. rewrite synthesized_unfold in Hin.
    exact (run_direct_queries_keeps env _ spec row rows Hin Hrows).
Qed.

Lemma vector_failure_is_isolated_witness :
  Result.processing_method (process_query index_down "list all animals" 15 true true) =
    ["sparql_chain"; "direct_sparql"] /\
  Result.vector_search_results (process_query index_down "list all animals" 15 true true) = [] /\
  ~ In "vector_search"
       (Result.processing_method (process_query index_down "list all animals" 15 true true)).
Proof.
  split; [vm_compute; reflexivity|].
  pose proof (vector_failure_is_isolated index_down "list all animals" 15 true
                (fun _ _ => Raise "index unavailable") "index unavailable"
                eq_refl eq_refl) as H.
  exact (conj (proj1 (proj2 H)) (proj1 (proj2 (proj2 H)))).
Defined.

(** C10.  For a structured intent direct_sparql is always recorded, also
    when every synthesized query fails or returns no row, in which case the
    list of result sets is empty. *)
Theorem direct_sparql_recorded_regardless :
  forall (env : environment) (user_query : string) (top_k : Z)
         (use_sparql_chain include_vector_search : bool),
    In (Classification.primary_intent (_classify_query_enhanced (_preprocess_query user_query)))
       structured_intents ->
    In "direct_sparql"
       (Result.processing_method
          (process_query env user_query top_k use_sparql_chain include_vector_search)) /\
    ((forall q, query_sparql env q = Ok [] \/ exists e, query_sparql env q = Raise e) ->
     Result.direct_sparql_results
       (process_query env user_query top_k use_sparql_chain include_vector_search) = []).
Proof.
  intros env user_query top_k use_sparql_chain include_vector_search Hintent.
  destruct (process_query_fields env user_query top_k use_sparql_chain include_vector_search)
    as (_ & _ & Hd & Hm & _).
  rewrite Hm, Hd, (direct_step_structured env _ _ _ Hintent). clear Hm Hd. split.
  - rewrite !in_app_iff. right. right. apply in_eq.
  - intros Hfail. now apply run_direct_queries_all_fail.
Qed.

Lemma direct_sparql_recorded_regardless_witness :
  In "direct_sparql"
     (Result.processing_method (process_query no_collaborators "list all animals" 15 true true)) /\
  Result.direct_sparql_results
    (process_query no_collaborators "list all animals" 15 true true) = [].
Proof.
  pose proof (direct_sparql_recorded_regardless no_collaborators "list all animals" 15 true true
                (or_introl eq_refl)) as H.
  exact (conj (proj1 H) (proj2 H (fun q => or_intror (ex_intro _ "query failed" eq_refl)))).
Defined.

(** * Further properties of the code *)

(** ** Intent classifier: the score map and the secondary intent *)

Lemma classify_all_scores (query : string) :
  Classification.all_scores (_classify_query_enhanced query) =
  sorted_reverse by_score (intent_scores (strip (lower query))).
Proof.
  unfold _classify_query_enhanced. fold by_score.
  now destruct (sorted_reverse by_score _).
Qed.

Lemma filter_length_le {A : Type} (f : A -> bool) (l : list A) :
  List.length (filter f l) <= List.length l.
Proof.
  induction l as [|x l IH]; simpl; [lia|]. destruct (f x); simpl; lia.
Qed.

Lemma intent_scores_bounded (q : string) :
  Forall (fun e => (0 <= snd e)%Q /\ (snd e <= 10)%Q) (intent_scores q).
Proof.
  assert (Hq : forall a b : nat, a <= 7 -> b <= 6 ->
             (0 <= Qof a + Qof b * (1 # 2))%Q /\ (Qof a + Qof b * (1 # 2) <= 10)%Q).
  { intros a b Ha Hb. unfold Qof, Qle, Qplus, Qmult, inject_Z. cbn [Qnum Qden]. lia. }
  assert (Hp : forall l, List.length l <= 7 -> pattern_score q l <= 7).
  { intros l Hl. unfold pattern_score.
    eapply Nat.le_trans; [apply filter_length_le | exact Hl]. }
  assert (Hk : forall l, List.length l <= 6 -> keyword_score q l <= 6).
  { intros l Hl. unfold keyword_score.
    eapply Nat.le_trans; [apply filter_length_le | exact Hl]. }
  unfold intent_scores. revert Hp Hk.
  generalize (pattern_score q) (keyword_score q). intros ps ks Hp Hk.
  unfold query_patterns, intent_keywords.
  cbv [fold_left dict_set dict_get fst snd String.eqb Ascii.eqb Bool.eqb].
  repeat constructor; cbv [snd]; apply Hq;
    first [apply Hp | apply Hk]; cbn [List.length]; lia.
Qed.

Lemma StronglySorted_weaken {A : Type} (R R' : A -> A -> Prop) (l : list A) :
  (forall a b, R a b -> R' a b) -> StronglySorted R l -> StronglySorted R' l.
Proof.
  intros H Hs. induction Hs as [|a l Hs IH Hall]; constructor; [exact IH|].
  eapply Forall_impl; [|exact Hall]. intros b. apply H.
Qed.

(** X1 (lines 533-564).  The score map always holds the eight intents, each
    once, in descending order of score, and every score lies between 0 and
    10. *)
Theorem score_map_shape : forall query : string,
  Permutation (map fst (Classification.all_scores (_classify_query_enhanced query)))
    [ "definition"; "relationship"; "property"; "listing"; "comparison";
      "hierarchical"; "existence"; "count" ] /\
  StronglySorted (fun a b => (snd b <= snd a)%Q)
    (Classification.all_scores (_classify_query_enhanced query)) /\
  Forall (fun e => (0 <= snd e)%Q /\ (snd e <= 10)%Q)
    (Classification.all_scores (_classify_query_enhanced query)).
Proof.
  intros query. split; [apply classify_scores_keys|].
  rewrite classify_all_scores. split.
  - eapply StronglySorted_weaken.
    2: exact (sorted_reverse_sorted by_score by_score_asym by_score_trans _).
    intros a b H. now apply Qltb_false.
  - apply Forall_forall. intros e He.
    apply (Permutation_in _ (sorted_reverse_perm by_score _)) in He.
    pose proof (intent_scores_bounded (strip (lower query))) as Hb.
    rewrite Forall_forall in Hb. auto.
Qed.

Lemma classify_structure (query : string) :
  exists first rest,
    Classification.all_scores (_classify_query_enhanced query) = first :: rest /\
    Classification.confidence (_classify_query_enhanced query) = snd first /\
    Classification.primary_intent (_classify_query_enhanced query) =
      (if Qltb 0 (snd first) then fst first else "general") /\
    Classification.secondary_intent (_classify_query_enhanced query) =
      match rest with
      | second :: _ => if Qltb 0 (snd second) then Some (fst second) else None
      | [] => None
      end /\
    Forall (fun e => (snd e <= snd first)%Q) rest /\
    NoDup (map fst (first :: rest)) /\
    ~ In "general" (map fst (first :: rest)).
Proof.
  pose proof (classify_scores_keys query) as Hk.
  pose proof (classify_all_scores query) as Ha.
  pose proof (sorted_reverse_sorted by_score by_score_asym by_score_trans
                (intent_scores (strip (lower query)))) as Hs.
  rewrite <- Ha in Hs. revert Hk Ha Hs.
  unfold _classify_query_enhanced. fold by_score.
  destruct (sorted_reverse by_score (intent_scores (strip (lower query))))
    as [|first rest]; cbn [Classification.all_scores Classification.confidence
                           Classification.primary_intent Classification.secondary_intent].
  - intros Hk _ _. apply Permutation_nil in Hk. discriminate.
  - intros Hk _ Hs. exists first, rest. repeat split.
    + inversion Hs as [|? ? _ Hall]; subst.
      eapply Forall_impl; [|exact Hall]. intros e He. now apply Qltb_false.
    + apply (Permutation_NoDup (Permutation_sym Hk)).
      repeat constructor; simpl; intuition discriminate.
    + intros Hin. apply (Permutation_in _ Hk) in Hin.
      simpl in Hin. intuition discriminate.
Qed.

(** X2 (lines 553-564).  A secondary intent is never the primary one: it is
    another intent of the score map, with a positive score that does not
    exceed the confidence, and it is given only beside a named primary
    intent; when the primary intent is general there is none. *)
Theorem secondary_intent_is_runner_up : forall query : string,
  (forall s,
     Classification.secondary_intent (_classify_query_enhanced query) = Some s ->
     s <> Classification.primary_intent (_classify_query_enhanced query) /\
     Classification.primary_intent (_classify_query_enhanced query) <> "general" /\
     exists v,
       In (s, v) (Classification.all_scores (_classify_query_enhanced query)) /\
       (0 < v)%Q /\
       (v <= Classification.confidence (_classify_query_enhanced query))%Q) /\
  (Classification.primary_intent (_classify_query_enhanced query) = "general" ->
   Classification.secondary_intent (_classify_query_enhanced query) = None).
Proof.
  intros query.
  destruct (classify_structure query)
    as (first & rest & Hall & Hconf & Hprim & Hsec & Hle & Hnd & Hgen).
  rewrite Hall, Hconf, Hprim, Hsec. clear Hall Hconf Hprim Hsec.
  destruct first as [name top]. cbn [fst snd] in *.
  destruct rest as [|[name2 v2] rest]; [split; [discriminate | reflexivity]|].
  inversion Hle as [|? ? Hv2 _]; subst. cbn [fst snd map] in *.
  assert (Hkeys : name2 <> name).
  { inversion Hnd as [|? ? Hnot _]; subst. intros ->. apply Hnot. now left. }
  assert (Hname : name <> "general").
  { intros ->. apply Hgen. now left. }
  destruct (Qltb 0 v2) eqn:E2; [|split; [discriminate | reflexivity]].
  apply Qltb_true in E2.
  assert (Etop : Qltb 0 top = true)
    by (apply Qltb_true; now apply Qlt_le_trans with v2).
  rewrite Etop. split.
  - intros s [= <-]. split; [exact Hkeys|]. split; [exact Hname|].
    exists v2. split; [right; now left|]. split; assumption.
  - intros Habs. now contradiction Hname.
Qed.

(** ** Concept extractor: what a concept can look like *)

Lemma findall_words_tokens (Q : ascii -> Prop) (s : string) :
  Forall Q (chars s) ->
  forall st,
    match st with
    | Letters acc => acc <> EmptyString /\
                     Forall (fun ch => is_ascii_letter ch = true /\ Q ch) (chars acc)
    | _ => True
    end ->
    forall w, In w (findall_words st s) ->
      w <> EmptyString /\ Forall (fun ch => is_ascii_letter ch = true /\ Q ch) (chars w).
Proof.
  induction s as [|c s IH]; intros Hs st Hst w Hw.
  - destruct st; simpl in Hw; try tauto. destruct Hw as [<- | []]. exact Hst.
  - inversion Hs as [|? ? Hc Hs']; subst. cbn [findall_words] in Hw.
    destruct (is_ascii_letter c) eqn:El.
    + destruct st as [|acc|].
      * apply (IH Hs' (Letters (str1 c))); [|exact Hw].
        split; [discriminate|]. repeat constructor; assumption.
      * apply (IH Hs' (Letters (acc ++ str1 c))); [|exact Hw].
        destruct Hst as [Hne Hacc]. split.
        -- destruct acc; [congruence | discriminate].
        -- rewrite chars_append. apply Forall_app. split; [exact Hacc|].
           repeat constructor; assumption.
      * apply (IH Hs' Spoiled); [exact I | exact Hw].
    + destruct (is_word c).
      * apply (IH Hs' Spoiled); [exact I | exact Hw].
      * destruct st as [|acc|].
        -- apply (IH Hs' Outside); [exact I | exact Hw].
        -- destruct Hw as [<- | Hw]; [exact Hst|].
           apply (IH Hs' Outside); [exact I | exact Hw].
        -- apply (IH Hs' Outside); [exact I | exact Hw].
Qed.

Lemma lower_char_not_upper (c : ascii) : between 65 90 (lower_char c) = false.
Proof.
  destruct c as [[] [] [] [] [] [] [] []]; reflexivity.
Qed.

Lemma letter_not_upper (ch : ascii) :
  is_ascii_letter ch = true -> between 65 90 ch = false -> lower_case_letter ch.
Proof.
  unfold is_ascii_letter, lower_case_letter. intros H Hu. rewrite Hu in H. exact H.
Qed.

Lemma unigrams_lower_case (query w : string) :
  In w (findall_words Outside (lower query)) ->
  w <> EmptyString /\ Forall lower_case_letter (chars w).
Proof.
  intros Hw.
  destruct (findall_words_tokens (fun ch => between 65 90 ch = false) (lower query))
    with (st := Outside) (w := w) as [Hne Hall]; [| exact I | exact Hw |].
  - rewrite lower_chars. apply Forall_map, Forall_forall. intros c _.
    apply lower_char_not_upper.
  - split; [exact Hne|]. eapply Forall_impl; [|exact Hall].
    intros ch [Hl Hu]. now apply letter_not_upper.
Qed.

Lemma len_append (a b : string) : len (a ++ b) = len a + len b.
Proof. unfold len. induction a as [|c a IH]; simpl; [reflexivity | now rewrite IH]. Qed.

(** A bigram or trigram: words of the list joined by single spaces. *)
Lemma multi_word_shape (cs : list string) (w : string) :
  In w (multi_word_concepts cs) ->
  In " "%char (chars w) /\ 3 <= len w /\
  Forall (fun ch => ch = " "%char \/ exists a, In a cs /\ In ch (chars a)) (chars w).
Proof.
  induction cs as [|c0 cs IH]; [intros []|].
  cbn [multi_word_concepts]. destruct cs as [|c1 rest]; [intros []|].
  intros Hw. apply in_app_or in Hw. destruct Hw as [Hw | Hw].
  - destruct ((3 <? len c0) && (3 <? len c1)) eqn:E; [|destruct Hw].
    apply andb_true_iff in E. destruct E as [E0 E1].
    apply Nat.ltb_lt in E0. apply Nat.ltb_lt in E1.
    assert (Hch : forall a, In a (c0 :: c1 :: rest) ->
              Forall (fun ch => ch = " "%char \/
                        exists a0, In a0 (c0 :: c1 :: rest) /\ In ch (chars a0)) (chars a)).
    { intros a Ha. apply Forall_forall. intros ch Hc. right. now exists a. }
    assert (Hsp : Forall (fun ch => ch = " "%char \/
                        exists a0, In a0 (c0 :: c1 :: rest) /\ In ch (chars a0)) (chars " ")).
    { repeat constructor. }
    destruct Hw as [<- | Hw].
    + split; [|split].
      * rewrite !chars_append, !in_app_iff. right. left. now left.
      * rewrite !len_append. lia.
      * rewrite !chars_append. repeat (apply Forall_app; split); auto;
          apply Hch; simpl; tauto.
    + destruct rest as [|c2 rest']; [destruct Hw|].
      destruct (3 <? len c2); [|destruct Hw]. destruct Hw as [<- | []].
      split; [|split].
      * rewrite !chars_append, !in_app_iff. right. left. now left.
      * rewrite !len_append. lia.
      * rewrite !chars_append. repeat (apply Forall_app; split); auto;
          apply Hch; simpl; tauto.
  - destruct (IH Hw) as (H1 & H2 & H3). split; [exact H1|]. split; [exact H2|].
    eapply Forall_impl; [|exact H3].
    intros ch [-> | (a & Ha & Hc)]; [now left|]. right. exists a. split; [now right | exact Hc].
Qed.

Lemma concept_is_quoted_or_plain :
  forall (order : list string -> list string) (query c : string),
    set_iteration order ->
    In c (_extract_key_concepts_enhanced order query) ->
    In c (findall_quoted dquote_char None query ++ findall_quoted squote_char None query)%list \/
    (~ In c stop_words /\ 3 <= len c /\
     Forall (fun ch => lower_case_letter ch \/ ch = " "%char) (chars c)).
Proof.
  intros order query c Hord Hc.
  apply (Permutation_in _ (extract_permutation order query)) in Hc.
  apply (proj1 (proj2 (Hord _) c)) in Hc. unfold concept_sources in Hc. cbv zeta in Hc.
  set (concepts := filter _ _) in Hc.
  assert (Hconcepts : forall w, In w concepts ->
            ~ In w stop_words /\ 3 <= len w /\ Forall lower_case_letter (chars w)).
  { intros w Hw. apply filter_In in Hw. destruct Hw as [Hw Hf].
    apply andb_true_iff in Hf. destruct Hf as [Hstop Hlen].
    apply Nat.ltb_lt in Hlen. split; [|split; [lia|]].
    - intros Hin. apply mem_true in Hin. rewrite Hin in Hstop. discriminate.
    - now apply unigrams_lower_case in Hw. }
  rewrite !in_app_iff in Hc. destruct Hc as [Hc | [Hc | Hc]].
  - right. destruct (Hconcepts c Hc) as (H1 & H2 & H3).
    split; [exact H1|]. split; [exact H2|].
    eapply Forall_impl; [|exact H3]. intros ch; now left.
  - right. destruct (multi_word_shape _ _ Hc) as (Hsp & Hlen & Hch).
    split; [|split; [exact Hlen|]].
    + intros Hin. destruct (stop_words_are_letters c Hin) as [_ Hl].
      rewrite Forall_forall in Hl. specialize (Hl _ Hsp). discriminate.
    + eapply Forall_impl; [|exact Hch].
      intros ch [-> | (a & Ha & Hin)]; [now right|]. left.
      destruct (Hconcepts a Ha) as (_ & _ & H3). rewrite Forall_forall in H3. auto.
  - left. apply in_app_iff. exact Hc.
Qed.

(** X3 (lines 566-609).  A concept that is not a quoted phrase of the query
    is not a stop-word, is at least three characters long, and is made of
    lower-case ASCII letters and spaces only. *)
Theorem unquoted_concept_shape :
  forall (order : list string -> list string) (query c : string),
    set_iteration order ->
    In c (_extract_key_concepts_enhanced order query) ->
    In c (findall_quoted dquote_char None query ++ findall_quoted squote_char None query)%list \/
    (~ In c stop_words /\ 3 <= len c /\
     Forall (fun ch => lower_case_letter ch \/ ch = " "%char) (chars c)).
Proof. exact concept_is_quoted_or_plain. Qed.

Lemma list_all_animals_first_seen :
  _extract_key_concepts_enhanced first_seen "list all animals" = ["all"; "animals"].
Proof. vm_compute. reflexivity. Qed.

Lemma unquoted_concept_shape_witness :
  set_iteration first_seen /\
  In "animals" (_extract_key_concepts_enhanced first_seen "list all animals") /\
  (In "animals" (findall_quoted dquote_char None "list all animals" ++
                 findall_quoted squote_char None "list all animals")%list \/
   (~ In "animals" stop_words /\ 3 <= len "animals" /\
    Forall (fun ch => lower_case_letter ch \/ ch = " "%char) (chars "animals"))).
Proof.
  refine (conj first_seen_is_set_iteration (conj _ _)).
  - rewrite list_all_animals_first_seen. right. left. reflexivity.
  - refine (unquoted_concept_shape first_seen "list all animals" "animals"
              first_seen_is_set_iteration _).
    rewrite list_all_animals_first_seen. right. left. reflexivity.
Defined.

Lemma findall_quoted_phrases (q : ascii) (s : string) :
  forall open,
    match open with
    | Some acc => ~ In q (chars acc)
    | None => True
    end ->
    forall p, In p (findall_quoted q open s) -> p <> EmptyString /\ ~ In q (chars p).
Proof.
  induction s as [|c s IH]; intros open Hopen p Hp; [destruct Hp|].
  cbn [findall_quoted] in Hp. destruct (Ascii.eqb c q) eqn:E.
  - destruct open as [[|a acc]|].
    + apply (IH (Some EmptyString)); [simpl; tauto | exact Hp].
    + destruct Hp as [<- | Hp]; [split; [discriminate | exact Hopen]|].
      apply (IH None); [exact I | exact Hp].
    + apply (IH (Some EmptyString)); [simpl; tauto | exact Hp].
  - destruct open as [acc|].
    + apply (IH (Some (acc ++ str1 c))); [|exact Hp].
      rewrite chars_append, in_app_iff. intros [H | [H | []]]; [tauto|].
      subst c. now rewrite Ascii.eqb_refl in E.
    + apply (IH None); [exact I | exact Hp].
Qed.

(** X4 (lines 592-596).  A phrase found between double quotes, or between
    single quotes, is always a concept, stop-word or not; it is not empty and
    does not hold its own quote character. *)
Theorem quoted_phrase_is_concept :
  forall (order : list string -> list string) (query p : string) (q : ascii),
    set_iteration order ->
    q = dquote_char \/ q = squote_char ->
    In p (findall_quoted q None query) ->
    In p (_extract_key_concepts_enhanced order query) /\
    p <> EmptyString /\ ~ In q (chars p).
Proof.
  intros order query p q Hord Hq Hp. split.
  - apply (Permutation_in _ (Permutation_sym (extract_permutation order query))).
    apply (proj2 (proj2 (Hord _) p)). unfold concept_sources. cbv zeta.
    rewrite !in_app_iff.
    destruct Hq as [-> | ->]; tauto.
  - exact (findall_quoted_phrases q query None I p Hp).
Qed.

Lemma quoted_phrase_is_concept_witness :
  set_iteration first_seen /\
  In "the" (findall_quoted squote_char None "what is 'the' for") /\
  In "the" (_extract_key_concepts_enhanced first_seen "what is 'the' for") /\
  "the" <> EmptyString /\ ~ In squote_char (chars "the").
Proof.
  refine (conj first_seen_is_set_iteration (conj _ _)).
  - vm_compute. left. reflexivity.
  - refine (quoted_phrase_is_concept first_seen "what is 'the' for" "the" squote_char
              first_seen_is_set_iteration (or_intror eq_refl) _).
    vm_compute. left. reflexivity.
Defined.

(** ** Query builders and the two definitions of the synthesizer *)

Lemma occurrences_append (c : ascii) (s t : string) :
  occurrences c (s ++ t) = occurrences c s + occurrences c t.
Proof. unfold occurrences. now rewrite chars_append, count_occ_app. Qed.

Lemma occurrences_escaped (c : ascii) (text : string) :
  c = dquote_char \/ c = backslash_char ->
  occurrences c (_escape_sparql_string text) = 0.
Proof.
  intros Hc. unfold occurrences. apply count_occ_not_In. intros Hin.
  pose proof (escape_output_settled text) as H. rewrite Forall_forall in H.
  destruct (H c Hin) as (_ & Hb & Hd & _). destruct Hc; contradiction.
Qed.

Ltac count_in_template :=
  intros concept;
  repeat rewrite occurrences_append;
  repeat rewrite (occurrences_escaped dquote_char) by (now left);
  repeat rewrite (occurrences_escaped backslash_char) by (now right);
  reflexivity.

Lemma list_classes_quotes : forall concept,
  occurrences dquote_char (_build_list_classes_query concept) = 4 /\
  occurrences backslash_char (_build_list_classes_query concept) = 0.
Proof. split; revert concept; unfold _build_list_classes_query; count_in_template. Qed.

Lemma list_properties_quotes : forall concept,
  occurrences dquote_char (_build_list_properties_query concept) = 8 /\
  occurrences backslash_char (_build_list_properties_query concept) = 0.
Proof. split; revert concept; unfold _build_list_properties_query; count_in_template. Qed.

Lemma subclasses_quotes : forall concept,
  occurrences dquote_char (_build_subclasses_query concept) = 4 /\
  occurrences backslash_char (_build_subclasses_query concept) = 0.
Proof. split; revert concept; unfold _build_subclasses_query; count_in_template. Qed.

Lemma superclasses_quotes : forall concept,
  occurrences dquote_char (_build_superclasses_query concept) = 4 /\
  occurrences backslash_char (_build_superclasses_query concept) = 0.
Proof. split; revert concept; unfold _build_superclasses_query; count_in_template. Qed.

Lemma count_classes_quotes : forall concept,
  occurrences dquote_char (_build_count_classes_query concept) = 4 /\
  occurrences backslash_char (_build_count_classes_query concept) = 0.
Proof. split; revert concept; unfold _build_count_classes_query; count_in_template. Qed.

Lemma relationships_quotes : forall concept1 concept2,
  occurrences dquote_char (_build_relationships_query concept1 concept2) = 16 /\
  occurrences backslash_char (_build_relationships_query concept1 concept2) = 0.
Proof.
  intros concept1. split; revert concept1; intros concept1; revert concept2;
    unfold _build_relationships_query; count_in_template.
Qed.

(** X5 (lines 180-336).  Whatever the concepts, a query text rendered by the
    builders holds the double quotes of its template and no other, and no
    backslash: a concept can neither close its literal nor escape the closing
    quote. *)
Theorem builders_keep_literals_closed : forall concept concept2 : string,
  (occurrences dquote_char (_build_list_classes_query concept) = 4 /\
   occurrences dquote_char (_build_list_properties_query concept) = 8 /\
   occurrences dquote_char (_build_subclasses_query concept) = 4 /\
   occurrences dquote_char (_build_superclasses_query concept) = 4 /\
   occurrences dquote_char (_build_relationships_query concept concept2) = 16 /\
   occurrences dquote_char (_build_count_classes_query concept) = 4) /\
  (occurrences backslash_char (_build_list_classes_query concept) = 0 /\
   occurrences backslash_char (_build_list_properties_query concept) = 0 /\
   occurrences backslash_char (_build_subclasses_query concept) = 0 /\
   occurrences backslash_char (_build_superclasses_query concept) = 0 /\
   occurrences backslash_char (_build_relationships_query concept concept2) = 0 /\
   occurrences backslash_char (_build_count_classes_query concept) = 0).
Proof.
  intros concept concept2.
  pose proof (list_classes_quotes concept). pose proof (list_properties_quotes concept).
  pose proof (subclasses_quotes concept). pose proof (superclasses_quotes concept).
  pose proof (relationships_quotes concept concept2).
  pose proof (count_classes_quotes concept). tauto.
Qed.

Lemma flat_map_pair_length {A B : Type} (f g : A -> B) (l : list A) :
  List.length (flat_map (fun x => [f x; g x]) l) = 2 * List.length l.
Proof. induction l as [|x l IH]; simpl; [reflexivity | rewrite IH; lia]. Qed.

Lemma map_flat_map_pair {A B C : Type} (h : B -> C) (f g : A -> B) (l : list A) :
  map h (flat_map (fun x => [f x; g x]) l) = flat_map (fun x => [h (f x); h (g x)]) l.
Proof. induction l as [|x l IH]; simpl; [reflexivity | now rewrite IH]. Qed.

Lemma synthesizer_lengths (query : string) (classification : Classification.t)
    (concepts : list string) :
  List.length (_generate_targeted_sparql_queries query classification concepts) =
    spec_count (Classification.primary_intent classification) (List.length concepts) /\
  List.length (Shadowed._generate_targeted_sparql_queries query classification concepts) =
    spec_count (Classification.primary_intent classification) (List.length concepts).
Proof.
  unfold _generate_targeted_sparql_queries, Shadowed._generate_targeted_sparql_queries,
    spec_count.
  cbv zeta.
  destruct (String.eqb (Classification.primary_intent classification) "listing").
  { rewrite !flat_map_pair_length, length_firstn. split; reflexivity. }
  destruct (String.eqb (Classification.primary_intent classification) "hierarchical").
  { rewrite !flat_map_pair_length, length_firstn. split; reflexivity. }
  destruct (String.eqb (Classification.primary_intent classification) "relationship").
  { destruct concepts as [|c1 [|c2 rest]]; split; reflexivity. }
  destruct (String.eqb (Classification.primary_intent classification) "count").
  { rewrite !length_map, length_firstn. split; reflexivity. }
  split; reflexivity.
Qed.

Lemma spec_count_at_most_six (intent : string) (n : nat) : spec_count intent n <= 6.
Proof.
  unfold spec_count.
  repeat match goal with |- context [String.eqb ?a ?b] => destruct (String.eqb a b) end;
    try lia.
  destruct (2 <=? n); lia.
Qed.

Lemma synthesizer_at_most_six (query : string) (classification : Classification.t)
    (concepts : list string) :
  List.length (_generate_targeted_sparql_queries query classification concepts) <= 6.
Proof.
  rewrite (proj1 (synthesizer_lengths query classification concepts)).
  apply spec_count_at_most_six.
Qed.

(** X6 (lines 705-823 and 113-178).  The number of specs depends on the
    primary intent and the number of concepts only: two per concept for at
    most three concepts (listing) or two concepts (hierarchical), one for a
    relationship between at least two concepts, one per concept for at most
    two concepts (count), none for any other intent; never more than six.
    Both definitions of the synthesizer yield that number. *)
Theorem synthesizer_spec_count :
  forall (query : string) (classification : Classification.t) (concepts : list string),
    List.length (_generate_targeted_sparql_queries query classification concepts) =
      spec_count (Classification.primary_intent classification) (List.length concepts) /\
    List.length (Shadowed._generate_targeted_sparql_queries query classification concepts) =
      spec_count (Classification.primary_intent classification) (List.length concepts) /\
    spec_count (Classification.primary_intent classification) (List.length concepts) <= 6.
Proof.
  intros query classification concepts.
  destruct (synthesizer_lengths query classification concepts) as [H1 H2].
  split; [exact H1|]. split; [exact H2 | apply spec_count_at_most_six].
Qed.

(** X7 (lines 113-178 and 705-823).  The two definitions of the synthesizer
    yield specs with the same type tags and the same descriptions, in the
    same order, on every input; they can differ in the query text only. *)
Theorem synthesizer_definitions_agree :
  forall (query : string) (classification : Classification.t) (concepts : list string),
    map QuerySpec.type
        (Shadowed._generate_targeted_sparql_queries query classification concepts) =
    map QuerySpec.type (_generate_targeted_sparql_queries query classification concepts) /\
    map QuerySpec.description
        (Shadowed._generate_targeted_sparql_queries query classification concepts) =
    map QuerySpec.description
        (_generate_targeted_sparql_queries query classification concepts).
Proof.
  intros query classification concepts.
  unfold _generate_targeted_sparql_queries, Shadowed._generate_targeted_sparql_queries.
  cbv zeta.
  destruct (String.eqb (Classification.primary_intent classification) "listing").
  { rewrite !map_flat_map_pair. split; reflexivity. }
  destruct (String.eqb (Classification.primary_intent classification) "hierarchical").
  { rewrite !map_flat_map_pair. split; reflexivity. }
  destruct (String.eqb (Classification.primary_intent classification) "relationship").
  { destruct concepts as [|c1 [|c2 rest]]; split; reflexivity. }
  destruct (String.eqb (Classification.primary_intent classification) "count").
  { rewrite !map_map. split; reflexivity. }
  split; reflexivity.
Qed.

(** ** Text normaliser *)

Lemma collapse_spaces_chars (in_run : bool) (s : string) (c : ascii) :
  In c (chars (collapse_spaces in_run s)) ->
  c = " "%char \/ (In c (chars s) /\ is_space c = false).
Proof.
  revert in_run. induction s as [|d s IH]; intros in_run; cbn [collapse_spaces chars].
  - intros [].
  - destruct (is_space d) eqn:E.
    + destruct in_run; cbn [chars In].
      * intros H. destruct (IH _ H) as [-> | [H1 H2]]; [now left | right; tauto].
      * intros [<- | H]; [now left|].
        destruct (IH _ H) as [-> | [H1 H2]]; [now left | right; tauto].
    + cbn [chars In]. intros [<- | H]; [right; tauto|].
      destruct (IH _ H) as [-> | [H1 H2]]; [now left | right; tauto].
Qed.

Lemma sub_word_chars (word expansion : string) (s : string) (c : ascii) :
  forall prev skip,
    In c (chars (sub_word word expansion prev skip s)) ->
    In c (chars s) \/ In c (chars expansion).
Proof.
  induction s as [|d s IH]; intros prev skip; cbn [sub_word chars]; [intros []|].
  destruct skip as [|k].
  - destruct (negb prev && at_word word (String d s)).
    + rewrite chars_append, in_app_iff. intros [H | H]; [now right|].
      destruct (IH _ _ H); [left; now right | now right].
    + cbn [chars In]. intros [<- | H]; [left; now left|].
      destruct (IH _ _ H); [left; now right | now right].
  - intros H. destruct (IH _ _ H); [left; now right | now right].
Qed.

Lemma expand_abbreviations_plain (abbrs : list (string * string)) (s : string) :
  Forall (fun ab => plain_spaces (snd ab)) abbrs -> plain_spaces s ->
  plain_spaces (fold_left (fun q ab => sub_word (fst ab) (snd ab) false 0 q) abbrs s).
Proof.
  revert s. induction abbrs as [|ab abbrs IH]; intros s Hab Hs; [exact Hs|].
  inversion Hab as [|? ? H1 H2]; subst. cbn [fold_left]. apply IH; [exact H2|].
  intros c Hc Hsp. destruct (sub_word_chars _ _ _ _ _ _ Hc); auto.
Qed.

(** X8 (lines 514-531).  In a normalised query every whitespace character is
    a plain space: tabs, newlines and the other separators of the input are
    gone. *)
Theorem preprocess_leaves_plain_spaces : forall query : string,
  Forall (fun c => is_space c = false \/ c = " "%char) (chars (_preprocess_query query)).
Proof.
  intros query.
  assert (H : plain_spaces (_preprocess_query query)).
  { unfold _preprocess_query. apply expand_abbreviations_plain.
    - unfold abbreviations.
      repeat constructor; intros c Hc Hsp; cbn in Hc;
        repeat (destruct Hc as [<- | Hc]; [first [reflexivity | discriminate Hsp]|]);
        destruct Hc.
    - intros c Hc Hsp. destruct (collapse_spaces_chars _ _ _ Hc) as [-> | [_ H]];
        [reflexivity | congruence]. }
  apply Forall_forall. intros c Hc. destruct (is_space c) eqn:E; [right | now left].
  now apply H.
Qed.

Lemma lstrip_all_space (s : string) :
  Forall (fun c => is_space c = true) (chars s) -> lstrip s = EmptyString.
Proof.
  induction s as [|c s IH]; [reflexivity|]. intros H. inversion H; subst.
  cbn [lstrip]. rewrite H2. auto.
Qed.

(** X9 (lines 514-531).  A query made of whitespace only, the empty query
    included, is normalised to the empty text. *)
Theorem preprocess_blank_query : forall query : string,
  Forall (fun c => is_space c = true) (chars query) ->
  _preprocess_query query = EmptyString.
Proof.
  intros query H. unfold _preprocess_query, strip.
  rewrite (lstrip_all_space query H). reflexivity.
Qed.

Lemma preprocess_blank_query_witness :
  Forall (fun c => is_space c = true) (chars (" " ++ newline ++ " ")) /\
  _preprocess_query (" " ++ newline ++ " ") = EmptyString.
Proof.
  assert (H : Forall (fun c => is_space c = true) (chars (" " ++ newline ++ " ")))
    by (repeat constructor).
  exact (conj H (preprocess_blank_query (" " ++ newline ++ " ") H)).
Defined.

(** ** Retrieval orchestrator: what is recorded and what is returned *)

Lemma vector_step_methods (env : environment) (q : string) (k : Z) (b : bool) :
  snd (vector_step env q k b) = when (vector_search_ran env q k b) ["vector_search"].
Proof.
  unfold vector_step, vector_search_ran. destruct b; [|reflexivity].
  destruct (vector_store env) as [f|]; [|reflexivity]. now destruct (f q k).
Qed.

Lemma chain_step_methods_exact (env : environment) (q : string) (b : bool) :
  snd (chain_step env q b) = when (chain_ran env q b) ["sparql_chain"].
Proof.
  unfold chain_step, chain_ran. destruct (b && sparql_chain env); [|reflexivity].
  now destruct (query_with_langchain env q) as [[d|]|e].
Qed.

Lemma direct_step_methods_when (env : environment) (q : string) (c : Classification.t)
    (cs : list string) :
  snd (direct_step env q c cs) =
    when (mem (Classification.primary_intent c) structured_intents) ["direct_sparql"].
Proof.
  unfold direct_step, when. now destruct (mem _ structured_intents).
Qed.

(** X10 (lines 428-489).  The method list records, in this order and each at
    most once: vector_search exactly when the search was made and returned,
    sparql_chain exactly when the chain call was made and returned, and
    direct_sparql exactly when the primary intent is a structured one. *)
Theorem processing_methods_record :
  forall (env : environment) (user_query : string) (top_k : Z)
         (use_sparql_chain include_vector_search : bool),
    Result.processing_method
      (process_query env user_query top_k use_sparql_chain include_vector_search) =
    when (vector_search_ran env (_preprocess_query user_query) top_k include_vector_search)
         ["vector_search"] +++
    when (chain_ran env (_preprocess_query user_query) use_sparql_chain)
         ["sparql_chain"] +++
    when (mem (Classification.primary_intent
                 (_classify_query_enhanced (_preprocess_query user_query)))
              structured_intents)
         ["direct_sparql"].
Proof.
  intros env user_query top_k use_sparql_chain include_vector_search.
  destruct (process_query_fields env user_query top_k use_sparql_chain include_vector_search)
    as (_ & _ & _ & Hm & _).
  rewrite Hm, vector_step_methods, chain_step_methods_exact, direct_step_methods_when.
  reflexivity.
Qed.

Lemma run_direct_queries_sound (env : environment) (specs : list QuerySpec.t)
    (r : DirectResult.t) :
  In r (run_direct_queries env specs) ->
  exists spec row rows,
    In spec specs /\ query_sparql env (QuerySpec.query spec) = Ok (row :: rows) /\
    r = result_set spec (row :: rows).
Proof.
  induction specs as [|s specs IH]; [intros []|]. cbn [run_direct_queries].
  destruct (query_sparql env (QuerySpec.query s)) as [[|row rows]|e] eqn:E.
  - intros H. destruct (IH H) as (spec & r0 & rs & H1 & H2 & H3).
    exists spec, r0, rs. split; [now right | tauto].
  - intros [<- | H].
    + exists s, row, rows. split; [now left|]. split; [exact E | reflexivity].
    + destruct (IH H) as (spec & r0 & rs & H1 & H2 & H3).
      exists spec, r0, rs. split; [now right | tauto].
  - intros H. destruct (IH H) as (spec & r0 & rs & H1 & H2 & H3).
    exists spec, r0, rs. split; [now right | tauto].
Qed.

Lemma run_direct_queries_length (env : environment) (specs : list QuerySpec.t) :
  List.length (run_direct_queries env specs) <= List.length specs.
Proof.
  induction specs as [|s specs IH]; [apply Nat.le_refl|]. cbn [run_direct_queries].
  destruct (query_sparql env (QuerySpec.query s)) as [[|row rows]|e];
    cbn [List.length]; lia.
Qed.

(** X11 (lines 464-489).  Every result set of the result comes from a
    synthesized spec whose query returned at least one row, and carries that
    spec's type, text and description with the rows as returned; there are at
    most six result sets, and none when the primary intent is not a
    structured one. *)
Theorem direct_results_are_sound :
  forall (env : environment) (user_query : string) (top_k : Z)
         (use_sparql_chain include_vector_search : bool),
    (forall r,
       In r (Result.direct_sparql_results
               (process_query env user_query top_k use_sparql_chain include_vector_search)) ->
       exists spec row rows,
         In spec (synthesized (set_order env) user_query) /\
         query_sparql env (QuerySpec.query spec) = Ok (row :: rows) /\
         r = result_set spec (row :: rows)) /\
    List.length
      (Result.direct_sparql_results
         (process_query env user_query top_k use_sparql_chain include_vector_search)) <= 6 /\
    (~ In (Classification.primary_intent
             (_classify_query_enhanced (_preprocess_query user_query)))
          structured_intents ->
     Result.direct_sparql_results
       (process_query env user_query top_k use_sparql_chain include_vector_search) = []).
Proof.
  intros env user_query top_k use_sparql_chain include_vector_search.
  destruct (process_query_fields env user_query top_k use_sparql_chain include_vector_search)
    as (_ & _ & Hd & _ & _).
  rewrite Hd. clear Hd. unfold direct_step.
  destruct (mem (Classification.primary_intent
                   (_classify_query_enhanced (_preprocess_query user_query)))
                structured_intents) eqn:E; cbn [fst].
  - split; [|split].
    + intros r Hr. rewrite synthesized_unfold.
      exact (run_direct_queries_sound env _ r Hr).
    + eapply Nat.le_trans; [apply run_direct_queries_length|].
      apply synthesizer_at_most_six.
    + intros Hn. apply mem_In in E. contradiction.
  - split; [intros r []|]. split; [cbn [List.length]; lia | reflexivity].
Qed.

Lemma when_single_in (b : bool) (x y : string) : In x (when b [y]) -> b = true /\ x = y.
Proof. destruct b; simpl; [intros [<- | []]; tauto | intros []]. Qed.

Lemma methods_without_chain (env : environment) (user_query : string) (top_k : Z)
    (use_sparql_chain include_vector_search : bool) :
  snd (chain_step env (_preprocess_query user_query) use_sparql_chain) = [] ->
  ~ In "sparql_chain"
       (Result.processing_method
          (process_query env user_query top_k use_sparql_chain include_vector_search)).
Proof.
  intros Hc.
  destruct (process_query_fields env user_query top_k use_sparql_chain include_vector_search)
    as (_ & _ & _ & Hm & _).
  rewrite Hm, Hc, vector_step_methods, direct_step_methods_when, !in_app_iff.
  intros [H | [[] | H]]; apply when_single_in in H; destruct H as [_ H]; discriminate.
Qed.

Lemma methods_with_chain (env : environment) (user_query : string) (top_k : Z)
    (use_sparql_chain include_vector_search : bool) :
  snd (chain_step env (_preprocess_query user_query) use_sparql_chain) = ["sparql_chain"] ->
  In "sparql_chain"
     (Result.processing_method
        (process_query env user_query top_k use_sparql_chain include_vector_search)).
Proof.
  intros Hc.
  destruct (process_query_fields env user_query top_k use_sparql_chain include_vector_search)
    as (_ & _ & _ & Hm & _).
  rewrite Hm, Hc, !in_app_iff. right. left. apply in_eq.
Qed.

(** X12 (lines 447-462).  The chain step by its outcome.  When the chain is
    switched off or unavailable there is no chain result and no record of it.
    When the call raises, the chain result is an error dict with the message
    and sparql_chain is not recorded.  When the call returns nothing, the
    chain result is an error dict as well, yet sparql_chain is recorded.  When
    it returns a dict, that dict is the chain result and sparql_chain is
    recorded. *)
Theorem chain_step_outcomes :
  forall (env : environment) (user_query : string) (top_k : Z)
         (use_sparql_chain include_vector_search : bool),
    (use_sparql_chain && sparql_chain env = false ->
     Result.sparql_chain_result
       (process_query env user_query top_k use_sparql_chain include_vector_search) = None /\
     ~ In "sparql_chain"
          (Result.processing_method
             (process_query env user_query top_k use_sparql_chain include_vector_search))) /\
    (use_sparql_chain && sparql_chain env = true ->
     (forall e,
        query_with_langchain env (_preprocess_query user_query) = Raise e ->
        Result.sparql_chain_result
          (process_query env user_query top_k use_sparql_chain include_vector_search)
          = Some [("error", e)] /\
        ~ In "sparql_chain"
             (Result.processing_method
                (process_query env user_query top_k use_sparql_chain include_vector_search))) /\
     (query_with_langchain env (_preprocess_query user_query) = Ok None ->
      Result.sparql_chain_result
        (process_query env user_query top_k use_sparql_chain include_vector_search)
        = Some [("error", none_has_no_get)] /\
      In "sparql_chain"
         (Result.processing_method
            (process_query env user_query top_k use_sparql_chain include_vector_search))) /\
     (forall d,
        query_with_langchain env (_preprocess_query user_query) = Ok (Some d) ->
        Result.sparql_chain_result
          (process_query env user_query top_k use_sparql_chain include_vector_search)
          = Some d /\
        In "sparql_chain"
           (Result.processing_method
              (process_query env user_query top_k use_sparql_chain include_vector_search)))).
Proof.
  intros env user_query top_k use_sparql_chain include_vector_search.
  destruct (process_query_fields env user_query top_k use_sparql_chain include_vector_search)
    as (_ & Hc & _ & _ & _).
  rewrite Hc. clear Hc.
  pose proof (methods_without_chain env user_query top_k use_sparql_chain
                include_vector_search) as Hout.
  pose proof (methods_with_chain env user_query top_k use_sparql_chain
                include_vector_search) as Hin.
  unfold chain_step in *.
  destruct (use_sparql_chain && sparql_chain env).
  - split; [discriminate|]. intros _.
    destruct (query_with_langchain env (_preprocess_query user_query)) as [[d|]|e].
    + split; [discriminate|]. split; [discriminate|].
      intros d' [= <-]. split; [reflexivity | now apply Hin].
    + split; [discriminate|]. split; [|discriminate].
      intros _. split; [reflexivity | now apply Hin].
    + split; [|split; discriminate].
      intros e' [= <-]. split; [reflexivity | now apply Hout].
  - split; [|discriminate]. intros _. split; [reflexivity | now apply Hout].
Qed.

(** ** Entity enricher *)

Lemma firstn_length_le {A : Type} (n : nat) (l : list A) : List.length (firstn n l) <= n.
Proof. rewrite length_firstn. lia. Qed.

(** X13 (lines 611-642).  Enrichment keeps the identity of a hit: URI, name,
    type, labels, comments and score are those of the hit.  When the lookup
    of related entities raises, the hit comes back unchanged.  When it
    returns, at most 8 related entities are kept; a class gets at most 5
    instances and 5 sibling classes, a property at most 3 usage examples. *)
Theorem enrichment_is_bounded : forall (env : environment) (entity : Entity.t),
  (Entity.uri (_enhance_entity_with_relations env entity) = Entity.uri entity /\
   Entity.local_name (_enhance_entity_with_relations env entity) = Entity.local_name entity /\
   Entity.type (_enhance_entity_with_relations env entity) = Entity.type entity /\
   Entity.labels (_enhance_entity_with_relations env entity) = Entity.labels entity /\
   Entity.comments (_enhance_entity_with_relations env entity) = Entity.comments entity /\
   Entity.similarity_score (_enhance_entity_with_relations env entity) =
     Entity.similarity_score entity) /\
  (forall e, find_related_entities env (Entity.uri entity) = Raise e ->
             _enhance_entity_with_relations env entity = entity) /\
  (forall related,
     find_related_entities env (Entity.uri entity) = Ok related ->
     Entity.related_entities (_enhance_entity_with_relations env entity) = firstn 8 related /\
     (Entity.type entity = "Class" ->
      List.length (Entity.instances (_enhance_entity_with_relations env entity)) <= 5 /\
      List.length (Entity.sibling_classes (_enhance_entity_with_relations env entity)) <= 5) /\
     (Entity.type entity = "ObjectProperty" \/ Entity.type entity = "DatatypeProperty" ->
      List.length (Entity.usage_examples (_enhance_entity_with_relations env entity)) <= 3)).
Proof.
  intros env entity. unfold _enhance_entity_with_relations.
  destruct (find_related_entities env (Entity.uri entity)) as [related|e].
  - split; [|split; [discriminate|]].
    + destruct (String.eqb (Entity.type entity) "Class");
        [|destruct (String.eqb (Entity.type entity) "ObjectProperty"
                    || String.eqb (Entity.type entity) "DatatypeProperty")];
        repeat split.
    + intros related' [= <-]. split; [|split].
      * destruct (String.eqb (Entity.type entity) "Class");
          [|destruct (String.eqb (Entity.type entity) "ObjectProperty"
                      || String.eqb (Entity.type entity) "DatatypeProperty")];
          reflexivity.
      * intros Hclass. rewrite Hclass. cbn [String.eqb Ascii.eqb Bool.eqb].
        cbn [Entity.instances Entity.sibling_classes].
        split; apply firstn_length_le.
      * intros Hprop.
        assert (E : String.eqb (Entity.type entity) "Class" = false)
          by (destruct Hprop as [-> | ->]; reflexivity).
        assert (E' : String.eqb (Entity.type entity) "ObjectProperty"
                     || String.eqb (Entity.type entity) "DatatypeProperty" = true)
          by (destruct Hprop as [-> | ->]; reflexivity).
        rewrite E, E'. cbn [Entity.usage_examples]. apply firstn_length_le.
  - split; [repeat split|]. split; [reflexivity | discriminate].
Qed.

Lemma rows_to_some_length {A : Type} (f : dict -> option A) (rows : list dict) (l : list A) :
  rows_to f rows = Some l -> List.length l = List.length rows.
Proof.
  revert l. induction rows as [|r rows IH]; intros l; cbn [rows_to].
  - intros [= <-]. reflexivity.
  - destruct (f r); [|discriminate]. destruct (rows_to f rows); [|discriminate].
    intros [= <-]. cbn [List.length]. f_equal. now apply IH.
Qed.




Lemma enhance_keeps_uri (env : environment) (entity : Entity.t) :
  Entity.uri (_enhance_entity_with_relations env entity) = Entity.uri entity.
Proof.
  unfold _enhance_entity_with_relations.
  destruct (find_related_entities env (Entity.uri entity)); [|reflexivity].
  destruct (String.eqb (Entity.type entity) "Class");
    [|destruct (String.eqb (Entity.type entity) "ObjectProperty"
                || String.eqb (Entity.type entity) "DatatypeProperty")];
    reflexivity.
Qed.

Lemma process_query_enhanced (env : environment) (user_query : string) (top_k : Z)
    (use_sparql_chain include_vector_search : bool) :
  Result.enhanced_entities
    (process_query env user_query top_k use_sparql_chain include_vector_search) =
  if is_nil (Result.vector_search_results
               (process_query env user_query top_k use_sparql_chain include_vector_search))
  then None
  else Some (map (_enhance_entity_with_relations env)
                 (firstn 5 (Result.vector_search_results
                              (process_query env user_query top_k use_sparql_chain
                                 include_vector_search)))).
Proof.
  unfold process_query.
  destruct (vector_step _ _ _ _) as [vr m1].
  destruct (chain_step _ _ _) as [cr m2].
  destruct (direct_step _ _ _ _) as [dr m3].
  reflexivity.
Qed.

(** X15 (lines 491-498).  Without semantic hits there are no enhanced
    entities; with hits, the enhanced entities are the first five hits, in
    order and under their own URIs. *)
Theorem enhanced_entities_are_top_five :
  forall (env : environment) (user_query : string) (top_k : Z)
         (use_sparql_chain include_vector_search : bool),
    (Result.vector_search_results
       (process_query env user_query top_k use_sparql_chain include_vector_search) = [] ->
     Result.enhanced_entities
       (process_query env user_query top_k use_sparql_chain include_vector_search) = None) /\
    (Result.vector_search_results
       (process_query env user_query top_k use_sparql_chain include_vector_search) <> [] ->
     exists enhanced,
       Result.enhanced_entities
         (process_query env user_query top_k use_sparql_chain include_vector_search)
         = Some enhanced /\
       List.length enhanced =
         Nat.min 5 (List.length
                      (Result.vector_search_results
                         (process_query env user_query top_k use_sparql_chain
                            include_vector_search))) /\
       map Entity.uri enhanced =
         map Entity.uri
             (firstn 5 (Result.vector_search_results
                          (process_query env user_query top_k use_sparql_chain
                             include_vector_search)))).
Proof.
  intros env user_query top_k use_sparql_chain include_vector_search.
  rewrite process_query_enhanced.
  destruct (Result.vector_search_results _) as [|hit hits].
  - split; [reflexivity | congruence].
  - split; [discriminate|]. intros _. eexists. split; [reflexivity|]. split.
    + now rewrite length_map, length_firstn.
    + rewrite map_map. apply map_ext. intros e. apply enhance_keeps_uri.
Qed.

(** ** Context assembler: order, caps and the failing schema accessor *)

Lemma firstn_firstn_same {A : Type} (n : nat) (l : list A) :
  firstn n (firstn n l) = firstn n l.
Proof. rewrite firstn_firstn. now rewrite Nat.min_id. Qed.

Lemma is_nil_firstn {A : Type} (n : nat) (l : list A) :
  is_nil (firstn (S n) l) = is_nil l.
Proof. now destruct l. Qed.

(** X16 (lines 825-904).  The context reads the first five semantic hits and
    the first five key concepts only: cutting both lists to five entries
    changes nothing in the context. *)
Theorem context_reads_top_five : forall (env : environment) (result : Result.t),
  _generate_comprehensive_context env
    (with_hits_and_concepts result
       (firstn 5 (Result.vector_search_results result))
       (firstn 5 (Result.key_concepts result))) =
  _generate_comprehensive_context env result.
Proof.
  intros env result.
  unfold _generate_comprehensive_context, context_parts, wants_schema, header_lines,
    chain_lines, vector_lines, direct_lines, chain_truthy, chain_dict,
    with_hits_and_concepts.
  cbn [Result.original_query Result.query_classification Result.key_concepts
       Result.vector_search_results Result.sparql_chain_result
       Result.direct_sparql_results].
  now rewrite !firstn_firstn_same, !is_nil_firstn.
Qed.

(** X17 (lines 838-871).  When the chain result is error-free and there are
    semantic hits, the context is assembled without error and the chain
    section stands before the semantic section, directly after the header. *)
Theorem chain_section_precedes_hits :
  forall (env : environment) (result : Result.t),
    chain_truthy result = true ->
    get_truthy "error" (chain_dict result) = false ->
    Result.vector_search_results result <> [] ->
    exists chain_body hits_body,
      context_parts env result =
        Ok (header_lines result +++
            "=== LANGCHAIN SPARQL ANALYSIS ===" :: chain_body +++
            "=== RELEVANT ENTITIES FROM KNOWLEDGE GRAPH ===" :: hits_body).
Proof.
  intros env result Hchain Herr Hhits.
  exists (match dict_get "answer" (chain_dict result) with
          | Some a => when (negb (is_empty a)) [ "Generated Answer: " ++ a ]
          | None => []
          end +++
          match dict_get "sparql_query" (chain_dict result) with
          | Some q => when (negb (is_empty q)) [ "SPARQL Query Used: " ++ q ]
          | None => []
          end +++ [ "" ]).
  exists (flat_map (entity_lines env)
            (enumerate 1 (firstn 5 (Result.vector_search_results result))) +++
          direct_lines result +++ instruction_lines).
  unfold context_parts, wants_schema, chain_lines, vector_lines.
  rewrite Hchain, Herr.
  destruct (Result.vector_search_results result) as [|hit hits] eqn:E; [congruence|].
  cbn [is_nil negb andb when]. f_equal.
  repeat rewrite <- app_assoc. cbn [app]. repeat rewrite <- app_assoc. reflexivity.
Qed.

Lemma chain_section_precedes_hits_witness :
  exists chain_body hits_body,
    context_parts no_collaborators answered_result =
      Ok (header_lines answered_result +++
          "=== LANGCHAIN SPARQL ANALYSIS ===" :: chain_body +++
          "=== RELEVANT ENTITIES FROM KNOWLEDGE GRAPH ===" :: hits_body).
Proof.
  apply (chain_section_precedes_hits no_collaborators answered_result);
    [reflexivity | reflexivity | discriminate].
Defined.

(** X18 (lines 883-904).  When the schema overview is wanted and the schema
    accessor raises, the whole context is the error text: header and
    structured results are lost with it. *)
Theorem schema_failure_replaces_context :
  forall (env : environment) (result : Result.t) (e : string),
    Result.vector_search_results result = [] ->
    chain_truthy result = false ->
    get_schema_summary env = Raise e ->
    _generate_comprehensive_context env result = "Error generating context: " ++ e.
Proof.
  intros env result e Hhits Hchain Hschema.
  unfold _generate_comprehensive_context, context_parts, wants_schema.
  now rewrite Hhits, Hchain, Hschema.
Qed.

Lemma schema_failure_replaces_context_witness :
  _generate_comprehensive_context schema_down (bare_result None [one_result_set]) =
  "Error generating context: graph not loaded".
Proof.
  exact (schema_failure_replaces_context schema_down (bare_result None [one_result_set])
           "graph not loaded" eq_refl eq_refl eq_refl).
Defined.

Lemma run_direct_queries_same_graph (env env' : environment) (specs : list QuerySpec.t) :
  (forall q, query_sparql env' q = query_sparql env q) ->
  run_direct_queries env' specs = run_direct_queries env specs.
Proof.
  intros H. induction specs as [|s specs IH]; [reflexivity|].
  cbn [run_direct_queries]. now rewrite H, IH.
Qed.

Lemma entity_lines_same_format (env env' : environment) (ie : nat * Entity.t) :
  (forall x, format_3f env' x = format_3f env x) ->
  entity_lines env' ie = entity_lines env ie.
Proof. intros H. destruct ie as [i e]. unfold entity_lines. now rewrite H. Qed.

Lemma context_same_inputs (env env' : environment) (r r' : Result.t) :
  (forall x, format_3f env' x = format_3f env x) ->
  get_schema_summary env' = get_schema_summary env ->
  Result.original_query r' = Result.original_query r ->
  Result.query_classification r' = Result.query_classification r ->
  Result.key_concepts r' = Result.key_concepts r ->
  Result.vector_search_results r' = Result.vector_search_results r ->
  Result.sparql_chain_result r' = Result.sparql_chain_result r ->
  Result.direct_sparql_results r' = Result.direct_sparql_results r ->
  _generate_comprehensive_context env' r' = _generate_comprehensive_context env r.
Proof.
  intros Hf Hs H1 H2 H3 H4 H5 H6.
  unfold _generate_comprehensive_context, context_parts, wants_schema, header_lines,
    chain_lines, vector_lines, direct_lines, chain_truthy, chain_dict.
  rewrite Hs, H1, H2, H3, H4, H5, H6.
  rewrite (flat_map_ext _ _ (fun ie => entity_lines_same_format env env' ie Hf)).
  reflexivity.
Qed.

(** X19 (lines 491-501 and 848-871).  The enrichment does not reach the
    context: the context is assembled from the hits as the search returned
    them, so whatever the lookup of related entities and the resolver of
    local names answer, the context and every retrieval field are the
    same. *)
Theorem context_ignores_enrichment :
  forall (env : environment) (related : string -> outcome (list Related.t))
         (local_name : string -> string) (user_query : string) (top_k : Z)
         (use_sparql_chain include_vector_search : bool),
    Result.context
      (process_query (with_enricher_collaborators env related local_name)
         user_query top_k use_sparql_chain include_vector_search) =
    Result.context
      (process_query env user_query top_k use_sparql_chain include_vector_search) /\
    Result.vector_search_results
      (process_query (with_enricher_collaborators env related local_name)
         user_query top_k use_sparql_chain include_vector_search) =
    Result.vector_search_results
      (process_query env user_query top_k use_sparql_chain include_vector_search) /\
    Result.direct_sparql_results
      (process_query (with_enricher_collaborators env related local_name)
         user_query top_k use_sparql_chain include_vector_search) =
    Result.direct_sparql_results
      (process_query env user_query top_k use_sparql_chain include_vector_search).
Proof.
  intros env related local_name user_query top_k use_sparql_chain include_vector_search.
  set (env' := with_enricher_collaborators env related local_name).
  assert (Hv : vector_step env' (_preprocess_query user_query) top_k include_vector_search
               = vector_step env (_preprocess_query user_query) top_k include_vector_search)
    by reflexivity.
  assert (Hc : chain_step env' (_preprocess_query user_query) use_sparql_chain
               = chain_step env (_preprocess_query user_query) use_sparql_chain)
    by reflexivity.
  assert (Hd : forall c cs,
             direct_step env' (_preprocess_query user_query) c cs
             = direct_step env (_preprocess_query user_query) c cs).
  { intros c cs. unfold direct_step.
    destruct (mem _ structured_intents); [|reflexivity].
    f_equal. apply run_direct_queries_same_graph. reflexivity. }
  unfold process_query.
  change (set_order env') with (set_order env).
  rewrite Hv, Hc, Hd.
  destruct (vector_step env _ _ _) as [vr m1].
  destruct (chain_step env _ _) as [cr m2].
  destruct (direct_step env _ _ _) as [dr m3].
  cbn [Result.context Result.vector_search_results Result.direct_sparql_results].
  split; [|split; reflexivity].
  apply context_same_inputs; reflexivity.
Qed.

(** ** Query suggestions *)

(** X20 (lines 906-944).  There are never more than ten suggestions.  A
    query without concepts gets the four general suggestions; a query with a
    concept gets seven suggestions about its first concept and the first
    three general ones: the fourth general suggestion is cut. *)
Theorem suggestions_are_capped :
  forall (order : list string -> list string) (partial_query : string),
    List.length (get_query_suggestions order partial_query) <= 10 /\
    (_extract_key_concepts_enhanced order partial_query = [] ->
     get_query_suggestions order partial_query = general_suggestions) /\
    (_extract_key_concepts_enhanced order partial_query <> [] ->
     List.length (get_query_suggestions order partial_query) = 10 /\
     skipn 7 (get_query_suggestions order partial_query) = firstn 3 general_suggestions /\
     ~ In "How many entities are in the knowledge graph?"
          (skipn 7 (get_query_suggestions order partial_query))).
Proof.
  intros order partial_query. unfold get_query_suggestions. cbv zeta.
  destruct (_extract_key_concepts_enhanced order partial_query) as [|main_concept rest].
  - split; [cbn; lia|]. split; [reflexivity | congruence].
  - split; [cbn; lia|]. split; [discriminate|]. intros _.
    split; [reflexivity|]. split; [reflexivity|].
    cbn. intuition discriminate.
Qed.

(** ** Fallback response of the chatbot *)

(** X21 (chatbot.py, lines 559-588).  The fallback response by priority.  An
    error-free chain result decides alone: its answer is the response,
    whatever the hits, and when it has no answer the response is the error
    text, whatever the hits.  Otherwise hits give a listing, and without hits
    the response says whether structured results exist. *)
Theorem fallback_response_priority : forall query_result : Result.t,
  (chain_truthy query_result = true ->
   get_truthy "error" (chain_dict query_result) = false ->
   _generate_fallback_response query_result =
     match dict_get "answer" (chain_dict query_result) with
     | Some answer => answer
     | None => "I encountered an error processing your query."
     end) /\
  (chain_truthy query_result && negb (get_truthy "error" (chain_dict query_result)) = false ->
   Result.vector_search_results query_result = [] ->
   _generate_fallback_response query_result =
     if is_nil (Result.direct_sparql_results query_result)
     then "I couldn't find specific information about your query in the knowledge graph."
     else "I found information using SPARQL queries. Please check the detailed results.") /\
  (chain_truthy query_result && negb (get_truthy "error" (chain_dict query_result)) = false ->
   Result.vector_search_results query_result <> [] ->
   exists lines,
     _generate_fallback_response query_result =
       join newline
         (("I found " ++
           str_of_nat (Nat.min 3 (List.length (Result.vector_search_results query_result))) ++
           " relevant entities in the knowledge graph:") :: lines) /\
     List.length lines <= 6).
Proof.
  intros query_result. unfold _generate_fallback_response. split; [|split].
  - intros -> ->. reflexivity.
  - intros -> ->. cbn [is_nil negb].
    now destruct (Result.direct_sparql_results query_result).
  - intros -> Hhits.
    destruct (Result.vector_search_results query_result) as [|hit hits]; [congruence|].
    cbn [is_nil negb]. eexists. split.
    + rewrite length_firstn. reflexivity.
    + assert (H : forall (l : list Entity.t) i,
                List.length (flat_map fallback_entity_lines (enumerate i l))
                <= 2 * List.length l).
      { induction l as [|e l IH]; intros i; cbn [enumerate flat_map List.length]; [lia|].
        rewrite length_app. specialize (IH (S i)).
        unfold fallback_entity_lines at 1. destruct (Entity.comments e); cbn [List.length]; lia. }
      eapply Nat.le_trans; [apply H|]. rewrite length_firstn. lia.
Qed.

(** ** Escaping and the concepts the extractor yields *)

Lemma plain_char_settled (ch : ascii) :
  lower_case_letter ch \/ ch = " "%char -> settled ch.
Proof.
  intros H.
  assert (Hl : literal_char ch = true).
  { destruct H as [H | ->]; [|reflexivity].
    unfold literal_char, is_word, is_ascii_letter. unfold lower_case_letter in H.
    rewrite H. now rewrite orb_true_r. }
  unfold settled. split; [exact Hl|].
  destruct (literal_char_not_special ch Hl) as (H1 & H2 & H3).
  repeat split; auto; intros ->; destruct H as [H | H]; discriminate.
Qed.

(** X22 (lines 319-336 and 566-609).  The escape leaves every concept that
    is not a quoted phrase as it is: only a quoted phrase can hold a
    character that the escape replaces or deletes. *)
Theorem escape_fixes_unquoted_concepts :
  forall (order : list string -> list string) (query c : string),
    set_iteration order ->
    In c (_extract_key_concepts_enhanced order query) ->
    ~ In c (findall_quoted dquote_char None query ++
            findall_quoted squote_char None query)%list ->
    _escape_sparql_string c = c.
Proof.
  intros order query c Hord Hc Hq.
  destruct (concept_is_quoted_or_plain order query c Hord Hc) as [H | (_ & _ & H)];
    [contradiction|].
  apply escape_fixes_settled. eapply Forall_impl; [|exact H].
  intros ch. apply plain_char_settled.
Qed.

Lemma escape_fixes_unquoted_concepts_witness :
  set_iteration first_seen /\
  In "animals" (_extract_key_concepts_enhanced first_seen "list all animals") /\
  _escape_sparql_string "animals" = "animals".
Proof.
  assert (Hin : In "animals" (_extract_key_concepts_enhanced first_seen "list all animals"))
    by (rewrite list_all_animals_first_seen; right; left; reflexivity).
  refine (conj first_seen_is_set_iteration (conj Hin _)).
  refine (escape_fixes_unquoted_concepts first_seen "list all animals" "animals"
            first_seen_is_set_iteration Hin _).
  vm_compute. tauto.
Defined.

Lemma shadowed_queries_by_escaped (query : string) (classification : Classification.t)
    (concepts concepts' : list string) :
  map _escape_sparql_string concepts' = map _escape_sparql_string concepts ->
  map QuerySpec.query
      (Shadowed._generate_targeted_sparql_queries query classification concepts') =
  map QuerySpec.query
      (Shadowed._generate_targeted_sparql_queries query classification concepts).
Proof.
  intros H. unfold Shadowed._generate_targeted_sparql_queries. cbv zeta.
  assert (Hn : forall n, map _escape_sparql_string (firstn n concepts')
                         = map _escape_sparql_string (firstn n concepts))
    by (intros n; now rewrite <- !firstn_map, H).
  assert (Hpair : forall (f g : string -> string) l l',
             map _escape_sparql_string l' = map _escape_sparql_string l ->
             flat_map (fun c => [f (_escape_sparql_string c); g (_escape_sparql_string c)]) l'
             = flat_map (fun c => [f (_escape_sparql_string c); g (_escape_sparql_string c)]) l).
  { intros f g l. induction l as [|x l IH]; intros [|x' l'] E; try discriminate E;
      [reflexivity|]. injection E as E1 E2. cbn [flat_map app]. rewrite E1.
    now rewrite (IH l' E2). }
  destruct (String.eqb (Classification.primary_intent classification) "listing").
  { rewrite !map_flat_map_pair. cbn [QuerySpec.query].
    unfold _build_list_classes_query, _build_list_properties_query.
    exact (Hpair (fun e => _ ++ _ ++ e ++ _ ++ _ ++ _ ++ e ++ _ ++ _)%string
                 (fun e => _ ++ _ ++ _ ++ _ ++ _ ++ _ ++ _ ++ _ ++ _ ++ _ ++ e ++ _ ++ _
                             ++ _ ++ e ++ _ ++ _)%string _ _ (Hn 3)). }
  destruct (String.eqb (Classification.primary_intent classification) "hierarchical").
  { rewrite !map_flat_map_pair. cbn [QuerySpec.query].
    unfold _build_subclasses_query, _build_superclasses_query.
    exact (Hpair (fun e => _ ++ _ ++ e ++ _ ++ _ ++ _ ++ e ++ _ ++ _)%string
                 (fun e => _ ++ _ ++ e ++ _ ++ _ ++ _ ++ e ++ _ ++ _)%string _ _ (Hn 2)). }
  destruct (String.eqb (Classification.primary_intent classification) "relationship").
  { destruct concepts as [|c1 [|c2 rest]], concepts' as [|c1' [|c2' rest']];
      try discriminate H; try reflexivity.
    injection H as E1 E2 _. cbn [map QuerySpec.query].
    unfold _build_relationships_query. now rewrite E1, E2. }
  destruct (String.eqb (Classification.primary_intent classification) "count").
  { rewrite !map_map. cbn [QuerySpec.query]. unfold _build_count_classes_query.
    specialize (Hn 2). revert Hn.
    generalize (firstn 2 concepts') (firstn 2 concepts). intros l' l.
    revert l'. induction l as [|x l IH]; intros [|x' l'] E; try discriminate E;
      [reflexivity|]. injection E as E1 E2. cbn [map]. rewrite E1. now rewrite (IH l' E2). }
  reflexivity.
Qed.

(** X23 (lines 113-336).  The query texts of the escaping definition of the
    synthesizer depend on the concepts through their escaped forms only; in
    particular, concepts that were escaped beforehand give the same texts,
    since escaping twice is escaping once. *)
Theorem escaping_synthesizer_accepts_escaped_concepts :
  forall (query : string) (classification : Classification.t) (concepts : list string),
    map QuerySpec.query
        (Shadowed._generate_targeted_sparql_queries query classification
           (map _escape_sparql_string concepts)) =
    map QuerySpec.query
        (Shadowed._generate_targeted_sparql_queries query classification concepts).
Proof.
  intros query classification concepts. apply shadowed_queries_by_escaped.
  rewrite map_map. apply map_ext. intros c.
  apply escape_fixes_settled, escape_output_settled.
Qed.

(** ** Concept scores *)

Lemma startswith_empty_text (sub : string) :
  startswith sub EmptyString = is_empty sub.
Proof. now destruct sub. Qed.

Lemma count_zero_not_found (sub s : string) (i : Z) :
  count_from 0 sub s = 0 -> find_from i sub s = (-1)%Z.
Proof.
  revert i. induction s as [|c s IH]; intros i; cbn [count_from find_from].
  - rewrite startswith_empty_text. now destruct (is_empty sub).
  - destruct (startswith sub (String c s)); [discriminate|]. apply IH.
Qed.

(** X24 (lines 598-605).  Every concept scores at least 1, and a concept
    that does not occur in the query scores exactly 1: the index -1 of a
    failed search counts as an early position and earns the bonus. *)
Theorem concept_score_at_least_one : forall query concept : string,
  1 <= concept_score query concept /\
  (count (lower concept) (lower query) = 0 -> concept_score query concept = 1).
Proof.
  intros query concept. unfold concept_score, count, find.
  destruct (count_from 0 (lower concept) (lower query)) as [|n] eqn:E.
  - rewrite (count_zero_not_found _ _ 0%Z E).
    assert (H : (10 * -1 <? 3 * Z.of_nat (len query))%Z = true)
      by (apply Z.ltb_lt; lia).
    rewrite H. split; [lia | reflexivity].
  - split; [|discriminate].
    destruct (10 * find_from 0 (lower concept) (lower query) <? 3 * Z.of_nat (len query))%Z;
      lia.
Qed.
